(** * Attraction recommender and itinerary composer

    A shallow embedding of [TourismRecommender] (tourism_recommender.py):
    the opening-hours evaluator, the scoring engine, the route optimizer
    and the day grouping of the itinerary composer, with the properties
    the specification states about them.

    Conventions of the embedding.
    - Python [str] values are [string]s holding the UTF-8 bytes of the
      text; substring tests on bytes and on code points agree for UTF-8.
    - Python [int] is [Z] (or [nat] for indices and counts), [float] is
      the rational it denotes ([Q]): the arithmetic of the scoring engine
      is exact here, where the source rounds to binary64.
    - A Python exception that leaves a function is the result [None] of
      an [option]; loops whose termination is not syntactic take fuel and
      return [None] when it runs out. *)

From Stdlib Require Import ZArith QArith Qround Lia Lqa List Ascii.
From stdpp Require Import gmap strings list sorting.

Open Scope Z_scope.

(** ** Area tables ([_preprocess_data]) *)

(** The literal of [self.travel_times], in source order. *)
Definition travel_times_literal : list ((string * string) * Z) :=
  [ (("云龙区", "泉山区"), 20);
    (("云龙区", "鼓楼区"), 15);
    (("泉山区", "铜山区"), 25);
    (("鼓楼区", "贾汪区"), 40);
    (("铜山区", "睢宁县"), 60);
    (("贾汪区", "邳州市"), 50);
    (("邳州市", "新沂市"), 45);
    (("沛县", "丰县"), 30) ].

(** A dict display: later items overwrite earlier ones. *)
Definition dict_of_items {K V} `{Countable K} (items : list (K * V)) : gmap K V :=
  foldl (λ d it, <[it.1 := it.2]> d) ∅ items.

(** [for (a, b), time in list(self.travel_times.items()):
       self.travel_times[(b, a)] = time]
    The snapshot [list(items())] of the literal is the literal itself (its
    keys are distinct), visited in insertion order. *)
Definition travel_times : gmap (string * string) Z :=
  foldl (λ d '((a, b), time), <[(b, a) := time]> d)
        (dict_of_items travel_times_literal) travel_times_literal.

Definition adjacent_areas : gmap string (list string) :=
  dict_of_items
    [ ("云龙区", ["泉山区"; "鼓楼区"]);
      ("泉山区", ["云龙区"; "铜山区"]);
      ("鼓楼区", ["云龙区"; "贾汪区"]);
      ("铜山区", ["泉山区"; "睢宁县"]);
      ("贾汪区", ["鼓楼区"; "邳州市"]);
      ("邳州市", ["贾汪区"; "新沂市"]);
      ("新沂市", ["邳州市"]);
      ("睢宁县", ["铜山区"]);
      ("沛县", ["丰县"]);
      ("丰县", ["沛县"]) ].

Definition get_adjacent_areas (area : string) : list string :=
  default [] (adjacent_areas !! area).

Definition get_travel_time (area1 area2 : string) : Z :=
  if decide (area1 = area2) then 0
  else default 90 (travel_times !! (area1, area2)).

Definition _get_actual_travel_time (area1 area2 : string) : Z :=
  let base_time := get_travel_time area1 area2 in
  if decide (area1 = area2) then 15 else base_time + 30.

(** ** Route optimizer ([_optimize_route], [_solve_tsp]) *)

(** The dict built per attraction in [generate_travel_plan]. *)
Record attraction_entry := {
  attr_name : string;
  attr_address : string;
  attr_opening_hours : option string;
  attr_themes : list string;
  attr_description : string;
  attr_score : Q;
  attr_area : string;
  attr_comment_count : Z
}.

Definition time_matrix (attractions : list attraction_entry) : list (list Z) :=
  let locations := map (λ attr, (attr_area attr, attr_name attr)) attractions in
  map (λ start, map (λ end_, _get_actual_travel_time start.1 end_.1) locations)
      locations.

(** [time_matrix[a][b]].  Python raises [IndexError] out of range; every
    read of [_solve_tsp] on an n x n matrix is in range, and the total
    lookup returns 0 elsewhere. *)
Definition entry (M : list (list Z)) (a b : nat) : Z :=
  default 0 (row ← M !! a; row !! b).

(** [range(a, b)] *)
Definition range (a b : nat) : list nat := seq a (b - a).

(** [min(xs, key=key)] started at [x]: the first minimal element wins. *)
Fixpoint min_by (key : nat → Z) (x : nat) (xs : list nat) : nat :=
  match xs with
  | [] => x
  | y :: ys => if key y <? key x then min_by key y ys else min_by key x ys
  end.

(** The nearest-neighbour loop [while unvisited: ...].  [unvisited] is a
    set of small integers; CPython iterates it in increasing order, which
    the list keeps.  Every turn removes one element, so the loop body runs
    [length unvisited] times: [turns] counts them. *)
Fixpoint nearest_neighbor_loop (M : list (list Z)) (turns : nat)
    (path unvisited : list nat) : list nat :=
  match turns, unvisited with
  | S turns', u :: us =>
      let last_ := List.last path 0%nat in
      let next_node := min_by (λ x, entry M last_ x) u us in
      nearest_neighbor_loop M turns' (path ++ [next_node])
        (filter (λ x, x ≠ next_node) unvisited)
  | _, _ => path
  end.

Definition nearest_neighbor (M : list (list Z)) (n : nat) : list nat :=
  let unvisited := range 1 n in
  nearest_neighbor_loop M (length unvisited) [0%nat] unvisited.

(** [path[j + 1] if j + 1 < n else 0] *)
Definition succ_node (n : nat) (path : list nat) (j : nat) : nat :=
  if decide (j + 1 < n)%nat then path !!! (j + 1)%nat else 0%nat.

Definition delta (M : list (list Z)) (n : nat) (path : list nat) (i j : nat) : Z :=
  entry M (path !!! (i - 1)%nat) (path !!! j)
  + entry M (path !!! i) (succ_node n path j)
  - entry M (path !!! (i - 1)%nat) (path !!! i)
  - entry M (path !!! j) (succ_node n path j).

(** [path[j:i - 1:-1]] for [1 <= i <= j < len(path)]: the elements at
    positions j, j-1, ..., i. *)
Definition slice_down (path : list nat) (j i : nat) : list nat :=
  rev (take (j + 1 - i) (drop i path)).

(** [path[i:j + 1] = path[j:i - 1:-1]] *)
Definition reverse_segment (path : list nat) (i j : nat) : list nat :=
  take i path ++ slice_down path j i ++ drop (j + 1) path.

(** The pairs (i, j) that one pass of the two nested [for] loops visits,
    in order: [j - i == 1] is skipped by [continue]. *)
Definition two_opt_pairs (n : nat) : list (nat * nat) :=
  i ← range 1 (n - 2);
  j ← range (i + 1) n;
  if decide (j - i = 1)%nat then [] else [(i, j)].

(** Body of the inner loop on the state [(path, improved)]. *)
Definition two_opt_step (M : list (list Z)) (n : nat)
    (st : list nat * bool) (ij : nat * nat) : list nat * bool :=
  let '(path, improved) := st in
  let '(i, j) := ij in
  if delta M n path i j <? 0 then (reverse_segment path i j, true)
  else (path, improved).

(** One turn of [while improved]: [improved = False], then the two loops. *)
Definition two_opt_pass (M : list (list Z)) (n : nat) (path : list nat)
    : list nat * bool :=
  foldl (two_opt_step M n) (path, false) (two_opt_pairs n).

(** [while improved: ...], with fuel for the number of passes. *)
Fixpoint two_opt (fuel : nat) (M : list (list Z)) (n : nat) (path : list nat)
    : option (list nat) :=
  match fuel with
  | O => None
  | S fuel' =>
      let '(path', improved) := two_opt_pass M n path in
      if improved then two_opt fuel' M n path' else Some path'
  end.

Definition _solve_tsp (fuel : nat) (time_matrix : list (list Z))
    : option (list nat) :=
  let n := length time_matrix in
  if decide (n ≤ 1)%nat then Some [0%nat]
  else two_opt fuel time_matrix n (nearest_neighbor time_matrix n).

(** [[attractions[i] for i in optimized_indices]]; an index out of range
    raises. *)
Definition _optimize_route (fuel : nat) (attractions : list attraction_entry)
    : option (list attraction_entry) :=
  if decide (length attractions ≤ 2)%nat then Some attractions
  else
    optimized_indices ← _solve_tsp fuel (time_matrix attractions);
    mapM (λ i, attractions !! i) optimized_indices.

(** The cost the 2-opt moves account for: the legs of the path and the leg
    from its last stop back to its first. *)
Fixpoint path_cost (M : list (list Z)) (path : list nat) : Z :=
  match path with
  | a :: (b :: _) as rest => entry M a b + path_cost M rest
  | _ => 0
  end.

Definition tour_cost (M : list (list Z)) (path : list nat) : Z :=
  path_cost M (path ++ [hd 0%nat path]).



(** What the loops maintain: a path over the nodes [0 .. n-1] that visits
    each once and starts at node 0. *)
Definition tour_inv (n : nat) (path : list nat) : Prop :=
  length path = n ∧ head path = Some 0%nat ∧ path ≡ₚ seq 0 n.

(** No pair of the 2-opt scan offers an improving move. *)
Definition local_optimum (M : list (list Z)) (n : nat) (path : list nat) : Prop :=
  Forall (λ ij, 0 ≤ delta M n path ij.1 ij.2) (two_opt_pairs n).



(** Five stops in five areas, used to run the optimizer. *)
Definition mk_stop (nm ar : string) : attraction_entry :=
  {| attr_name := nm; attr_address := ar; attr_opening_hours := None;
     attr_themes := []; attr_description := ""; attr_score := 1;
     attr_area := ar; attr_comment_count := 0 |}.

Definition five_stops : list attraction_entry :=
  [ mk_stop "a" "云龙区"; mk_stop "b" "泉山区"; mk_stop "c" "泉山区";
    mk_stop "d" "泉山区"; mk_stop "e" "铜山区" ].

(** ** Day grouping of the itinerary composer ([generate_travel_plan]) *)

(** [enumerate(xs)] *)
Definition enumerate {A} (xs : list A) : list (nat * A) := imap pair xs.

(** [daily_attractions = [[] for _ in date_range]
     for i, attr in enumerate(attractions_info):
         day_idx = i % len(date_range)
         daily_attractions[day_idx].append(attr)]
    The comprehension builds one fresh list per date, so the append at
    [day_idx] touches that day alone. *)
Definition daily_attractions {D A} (date_range : list D)
    (attractions_info : list A) : list (list A) :=
  foldl (λ daily '(i, attr),
           let day_idx := (i mod length date_range)%nat in
           alter (λ day, day ++ [attr]) day_idx daily)
        ((λ _, []) <$> date_range)
        (enumerate attractions_info).

(** [zip(date_range, daily_attractions)], the pairs the plan loop visits. *)
Definition day_groups {D A} (date_range : list D)
    (attractions_info : list A) : list (D * list A) :=
  zip date_range (daily_attractions date_range attractions_info).

(** The attractions at the indices congruent to [d] modulo [n], in the
    order of the route. *)
Definition round_robin_group {A} (n d : nat) (attractions_info : list A)
    : list A :=
  (filter (λ p, p.1 mod n = d)%nat (enumerate attractions_info)).*2.

(** ** Opening-hours evaluator ([parse_opening_hours]) *)

(** *** Python string operations

    Whitespace is the ASCII whitespace of [str.isspace]; text with
    non-ASCII blanks or digits is outside the model. *)

(** [sub in s] *)
Fixpoint contains (sub s : string) : bool :=
  String.prefix sub s ||
  match s with
  | EmptyString => false
  | String _ s' => contains sub s'
  end.

Definition is_ws (c : Ascii.ascii) : bool :=
  let k := Ascii.nat_of_ascii c in
  (k =? 32)%nat || ((9 <=? k)%nat && (k <=? 13)%nat)
  || ((28 <=? k)%nat && (k <=? 31)%nat).

Fixpoint lstrip (s : string) : string :=
  match s with
  | String c s' => if is_ws c then lstrip s' else s
  | EmptyString => EmptyString
  end.

(** [s.strip()] *)
Definition strip (s : string) : string :=
  String.rev (lstrip (String.rev (lstrip s))).

(** [s.split(sep)] for a one-character separator: the pieces between the
    separators, empty ones included. *)
Fixpoint split_on (sep : Ascii.ascii) (s : string) : list string :=
  match s with
  | EmptyString => [EmptyString]
  | String c s' =>
      match split_on sep s' with
      | piece :: pieces =>
          if decide (c = sep) then EmptyString :: piece :: pieces
          else String c piece :: pieces
      | [] => []
      end
  end.

(** The first run of non-blank characters of [s] and what follows it. *)
Fixpoint span_token (s : string) : string * string :=
  match s with
  | String c s' =>
      if is_ws c then (EmptyString, s)
      else let '(tok, rest) := span_token s' in (String c tok, rest)
  | EmptyString => (EmptyString, EmptyString)
  end.

(** [s.split()]: the maximal runs of non-blank characters.  [fuel] bounds
    the number of runs; the length of [s] is enough. *)
Fixpoint split_ws_go (fuel : nat) (s : string) : list string :=
  match fuel with
  | O => []
  | S fuel' =>
      match lstrip s with
      | EmptyString => []
      | s1 => let '(tok, rest) := span_token s1 in
              tok :: split_ws_go fuel' rest
      end
  end.

Definition split_ws (s : string) : list string :=
  split_ws_go (String.length s) s.

(** [s.split(maxsplit=1)]: the first run, then the remainder without its
    leading blanks, when it is not empty. *)
Definition split_ws_1 (s : string) : list string :=
  match lstrip s with
  | EmptyString => []
  | s1 => let '(tok, rest) := span_token s1 in
          match lstrip rest with
          | EmptyString => [tok]
          | rest' => [tok; rest']
          end
  end.

Definition digit_value (c : Ascii.ascii) : option Z :=
  let k := Ascii.nat_of_ascii c in
  if ((48 <=? k)%nat && (k <=? 57)%nat)%bool then Some (Z.of_nat k - 48) else None.

(** The digits of an integer literal after its sign; an underscore may
    stand between two digits.  [prev] tells whether the previous
    character was a digit, [acc] is the value read so far. *)
Fixpoint int_digits (prev : bool) (acc : Z) (s : string) : option Z :=
  match s with
  | EmptyString => if prev then Some acc else None
  | String c s' =>
      match digit_value c with
      | Some d => int_digits true (10 * acc + d) s'
      | None =>
          if (bool_decide (c = "_"%char) && prev)%bool then
            match s' with
            | String c' _ =>
                match digit_value c' with
                | Some _ => int_digits false acc s'
                | None => None
                end
            | EmptyString => None
            end
          else None
      end
  end.

(** [int(s)]; [None] is [ValueError]. *)
Definition int_of_string (s : string) : option Z :=
  match strip s with
  | String "-" s' => Z.opp <$> int_digits false 0 s'
  | String "+" s' => int_digits false 0 s'
  | s' => int_digits false 0 s'
  end.

(** *** Dates ([datetime.date]) *)

Record date := { date_year : Z; date_month : Z; date_day : Z }.

Definition is_leap (y : Z) : bool :=
  ((y mod 4 =? 0) && (negb (y mod 100 =? 0) || (y mod 400 =? 0)))%bool.

Definition days_in_month (y m : Z) : Z :=
  if m =? 2 then (if is_leap y then 29 else 28)
  else if (m =? 4) || (m =? 6) || (m =? 9) || (m =? 11) then 30
  else 31.

(** The dates [datetime.date] can hold. *)
Definition valid_date (d : date) : bool :=
  (1 <=? date_year d) && (date_year d <=? 9999)
  && (1 <=? date_month d) && (date_month d <=? 12)
  && (1 <=? date_day d) && (date_day d <=? days_in_month (date_year d) (date_month d)).

(** [datetime(year, month, day).date()]; [None] is [ValueError]. *)
Definition make_date (y m d : Z) : option date :=
  let dt := {| date_year := y; date_month := m; date_day := d |} in
  if valid_date dt then Some dt else None.

(** [a <= b] on dates. *)
Definition date_le (a b : date) : bool :=
  (date_year a <? date_year b)
  || ((date_year a =? date_year b)
      && ((date_month a <? date_month b)
          || ((date_month a =? date_month b) && (date_day a <=? date_day b)))).

Definition days_before_year (y : Z) : Z :=
  let y1 := y - 1 in y1 * 365 + y1 / 4 - y1 / 100 + y1 / 400.

Fixpoint days_before_month_go (y : Z) (k : nat) : Z :=
  match k with
  | O => 0
  | S k' => days_before_month_go y k' + days_in_month y (Z.of_nat k)
  end.

(** Days of the year before the first of month [m]. *)
Definition days_before_month (y m : Z) : Z :=
  days_before_month_go y (Z.to_nat (m - 1)).

Definition toordinal (d : date) : Z :=
  days_before_year (date_year d)
  + days_before_month (date_year d) (date_month d) + date_day d.

(** [d.weekday()]: Monday is 0. *)
Definition weekday (d : date) : Z := (toordinal d + 6) mod 7.

Definition two_digits (k : Z) : string :=
  String (Ascii.ascii_of_nat (48 + Z.to_nat (k / 10 mod 10)))
    (String (Ascii.ascii_of_nat (48 + Z.to_nat (k mod 10))) EmptyString).

(** [d.strftime('%m/%d')] *)
Definition strftime_md (d : date) : string :=
  two_digits (date_month d) +:+ "/" +:+ two_digits (date_day d).

(** *** The evaluator *)

Definition _parse_partial_date (date_str : string) (year : Z) : option date :=
  match split_on "/" date_str with
  | [m; d] =>
      month ← int_of_string m;
      day ← int_of_string d;
      make_date year month day
  | _ => None
  end.

(** Any exception inside is caught and answered [False]. *)
Definition _date_in_range (d : date) (start_str end_str : string) : bool :=
  match _parse_partial_date start_str (date_year d),
        _parse_partial_date end_str (date_year d) with
  | Some start, Some end_ => date_le start d && date_le d end_
  | _, _ => false
  end.

Definition _is_holiday (d : date) : bool :=
  bool_decide ((date_month d, date_day d) ∈ [(1, 1); (5, 1); (10, 1)]).

Definition holiday_names : list string :=
  ["元旦节"; "春节"; "清明节"; "劳动节"; "端午节"; "中秋节"; "国庆节"].

(** What one turn of [for rule in rules] does. *)
Inductive rule_outcome :=
  | Continue            (* next rule *)
  | Return (b : bool)   (* [return b] *)
  | Raise.              (* an exception leaves the function *)

Definition rule_step (visit_date : date) (rule : string) : rule_outcome :=
  let weekday := weekday visit_date in
  let is_holiday := _is_holiday visit_date in
  match split_ws rule with
  | [] => Raise
  | first :: _ =>
      if contains "-" first then
        match split_ws_1 rule with
        | [date_part; time_part] =>
            match split_on "-" date_part with
            | [start_date; end_date] =>
                if _date_in_range visit_date start_date end_date then
                  if contains "周一" time_part && negb (weekday =? 0) then Continue
                  else if contains "周二" time_part && negb (weekday =? 1) then Continue
                  else if contains "周三" time_part && negb (weekday =? 2) then Continue
                  else if contains "周四" time_part && negb (weekday =? 3) then Continue
                  else if contains "周五" time_part && negb (weekday =? 4) then Continue
                  else if contains "周六" time_part && negb (weekday =? 5) then Continue
                  else if contains "周日" time_part && negb (weekday =? 6) then Continue
                  else if existsb (λ h, contains h time_part) holiday_names
                          && negb is_holiday then Continue
                  else Return true
                else Continue
            | _ => Raise
            end
        | _ => Raise
        end
      else Continue
  end.

Fixpoint rules_loop (visit_date : date) (rules : list string) : rule_outcome :=
  match rules with
  | [] => Continue
  | rule :: rules' =>
      match rule_step visit_date rule with
      | Continue => rules_loop visit_date rules'
      | out => out
      end
  end.

(** [[r.strip() for r in opening_hours_str.split(';') if r.strip()]] *)
Definition rules_of (opening_hours_str : string) : list string :=
  strip <$> filter (λ r, strip r ≠ EmptyString) (split_on ";" opening_hours_str).

(** [visit_date] is given and its [%m/%d] token occurs in the text. *)
Definition date_listed (s : string) (visit_date : option date) : bool :=
  match visit_date with
  | Some d => contains (strftime_md d) s
  | None => false
  end.

(** [parse_opening_hours(opening_hours_str, visit_date)].  The first
    argument is [None] for a missing cell ([pd.isna]); the result [None]
    is an exception.  The function is pure, so its [lru_cache] is not
    modelled. *)
Definition parse_opening_hours (opening_hours_str : option string)
    (visit_date : option date) : option bool :=
  match opening_hours_str with
  | None => Some true
  | Some s =>
      if decide (s = EmptyString) then Some true
      else if contains "全天开放" s then Some true
      else if contains "不开放" s || contains "闭馆" s then
        if date_listed s visit_date then Some false
        else Some (negb (contains "不开放" s))
      else
        match visit_date with
        | Some d =>
            match rules_loop d (rules_of s) with
            | Return b => Some b
            | Raise => None
            | Continue =>
                if contains (strftime_md d) s then Some true else Some true
            end
        | None => Some true
        end
  end.

Definition sat_2024_06_15 : date :=
  {| date_year := 2024; date_month := 6; date_day := 15 |}.

(** ** Scoring engine ([get_attraction_info], [recommend]) *)

(** *** Python numbers on rationals *)

Definition Qltb (a b : Q) : bool := negb (Qle_bool b a).

(** [max(a, b)] and [min(a, b)]: the first argument stays unless the
    second is strictly beyond it. *)
Definition py_max (a b : Q) : Q := if Qltb a b then b else a.
Definition py_min (a b : Q) : Q := if Qltb b a then b else a.

(** Nearest integer, ties to the even one. *)
Definition round_half_even (x : Q) : Z :=
  let f := Qfloor x in
  match (x - inject_Z f ?= 1 # 2)%Q with
  | Lt => f
  | Gt => f + 1
  | Eq => if Z.even f then f else f + 1
  end.

(** [round(x, 1)] *)
Definition py_round1 (x : Q) : Q :=
  (inject_Z (round_half_even (x * 10)) / 10)%Q.

(** [xs[:top_n]] for [top_n] an integer or [None]. *)
Definition slice_to {A} (top_n : option Z) (xs : list A) : list A :=
  match top_n with
  | None => xs
  | Some k =>
      if 0 <=? k then take (Z.to_nat k) xs
      else take (length xs - Z.to_nat (- k)) xs
  end.

(** *** The graph and the record store *)

(** The attribute dict of a node; [None] is a key the dict lacks. *)
Record kg_node_data := {
  node_type : option string;
  node_name : option string;
  node_address : option string;
  node_opening_hours : option string
}.

Record kg_edge := {
  edge_source : string;
  edge_target : string;
  edge_relation : option string
}.

(** The directed multigraph [self.kg]: its nodes with their attribute
    dicts, and its edges, parallel ones repeated. *)
Record knowledge_graph := {
  kg_nodes : list (string * kg_node_data);
  kg_edges : list kg_edge
}.

(** The cell [csv_data.get('评分')] by what the source does with it. *)
Inductive rating_cell :=
  | RatingAbsent               (* None, '无评分' or '暂无评分' *)
  | RatingFloat (x : Q)        (* [float(rating)] is the finite number x *)
  | RatingNaN                  (* [float(rating)] is nan *)
  | RatingInf (positive : bool)(* [float(rating)] is inf or -inf *)
  | RatingInvalid.             (* [float(rating)] raises *)

(** The cell [csv_data['评论数']]. *)
Inductive comments_cell :=
  | CommentsAbsent
  | CommentsText (s : string)
  | CommentsNumber (x : Q).

(** A row of [attractions_dict].  Addresses and opening hours are text;
    [None] is a key the row lacks. *)
Record csv_record := {
  csv_rating : rating_cell;
  csv_comments : comments_cell;
  csv_enhanced_address : option string;
  csv_opening_hours : option string
}.

(** The state of a [TourismRecommender] that the recommendation reads.
    [attractions_df] is the list of rows (名称, opening_hours) of the
    frame, a missing opening-hours cell being [None]; the frame rebuilt
    from the cache has no 名称 column and is [None].  [areas] is the set
    [self.areas] in the order its iteration yields. *)
Record recommender := {
  kg : knowledge_graph;
  attractions_dict : gmap string csv_record;
  attractions_df : option (list (string * option string));
  areas : list string
}.

(** [s.replace(old, '')] for a non-empty [old]; [skip] counts the
    characters of a match still to drop. *)
Fixpoint remove_all_go (old : string) (skip : nat) (s : string) : string :=
  match s with
  | EmptyString => EmptyString
  | String c s' =>
      match skip with
      | S k => remove_all_go old k s'
      | O =>
          if String.prefix old s then remove_all_go old (String.length old - 1) s'
          else String c (remove_all_go old 0 s')
      end
  end.

Definition remove_all (old s : string) : string := remove_all_go old 0 s.

(** [int(re.sub(r'[^\d]', '', s))], and 0 when that raises. *)
Definition digits_value (s : string) : Z :=
  let ds := omap digit_value (String.list_ascii_of_string s) in
  foldl (λ acc d, 10 * acc + d) 0 ds.

Definition get_attractions (r : recommender) : list string :=
  (filter (λ nd, node_type nd.2 = Some "Attraction") (kg_nodes (kg r))).*1.

(** [self.kg.nodes[node]]; [None] is [KeyError]. *)
Definition kg_node (g : knowledge_graph) (node : string) : option kg_node_data :=
  snd <$> List.find (λ nd, bool_decide (nd.1 = node)) (kg_nodes g).

(** [n.split('_')[-1]] *)
Definition last_piece (n : string) : string :=
  List.last (split_on "_" n) EmptyString.

Definition get_related_attributes (r : recommender) (node relation : string)
    : list string :=
  (λ e, last_piece (edge_target e)) <$>
    filter (λ e, edge_source e = node ∧ edge_relation e = Some relation)
           (kg_edges (kg r)).

(** [self.kg.degree(node)]: the edges into and out of the node. *)
Definition degree (g : knowledge_graph) (node : string) : nat :=
  length (filter (λ e, edge_source e = node) (kg_edges g))
  + length (filter (λ e, edge_target e = node) (kg_edges g)).

Definition extract_area_from_address (r : recommender) (address : string)
    : string :=
  default "未知区域" (List.find (λ area, contains area address) (areas r)).

(** [check_opening_status]: any exception inside answers open. *)
Definition check_opening_status (r : recommender) (attraction_name : string)
    (visit_date : date) : bool :=
  match attractions_df r with
  | None => true
  | Some rows =>
      match List.find (λ row, bool_decide (row.1 = attraction_name)) rows with
      | None => true
      | Some record =>
          default true (parse_opening_hours record.2 (Some visit_date))
      end
  end.

Record attraction_info := {
  info_name : string;
  info_rating : Q;
  info_comment_count : Z;
  info_address : string;
  info_opening_hours : string
}.

Definition candidate : Type := string * Q * attraction_info.

Definition comment_intervals : list (Z * option Z * Q) :=
  [ (0, Some 50, 1%Q); (50, Some 200, 2%Q); (200, Some 1000, 4%Q);
    (1000, Some 5000, 6%Q); (5000, None, 8%Q) ].

Definition MAX_RAW_SCORE : Q := 100.

Section Recommend.

(** [math.log1p] on the counts it is applied to. *)
Variable log1p : nat → Q.

Definition get_attraction_info (r : recommender) (node : string)
    : option attraction_info :=
  info ← kg_node (kg r) node;
  let name := default (remove_all "Attraction_" node) (node_name info) in
  let csv_data := attractions_dict r !! name in
  let comment_count :=
    match csv_comments <$> csv_data with
    | Some (CommentsText s) => digits_value s
    | _ => 0
    end in
  let rating :=
    match default RatingAbsent (csv_rating <$> csv_data) with
    | RatingAbsent =>
        let themes_attr := get_related_attributes r node "HAS_THEME" in
        let audiences_attr := get_related_attributes r node "SUITABLE_FOR" in
        let theme_count := length themes_attr in
        let audience_count := length audiences_attr in
        let popularity := degree (kg r) node in
        let rating := (70 + 10 * log1p theme_count + 8 * log1p audience_count
                       + 5 * log1p popularity)%Q in
        let rating := py_min 95 (py_max 60 rating) in
        (rating / 20)%Q
    | RatingFloat x => py_min 5 (py_max 1 x)
    | RatingNaN => 1%Q
    | RatingInf positive => if positive then 5%Q else 1%Q
    | RatingInvalid => 3.5%Q
    end in
  Some {| info_name := name;
          info_rating := rating;
          info_comment_count := comment_count;
          info_address :=
            default (default EmptyString (csv_data ≫= csv_enhanced_address))
                    (node_address info);
          info_opening_hours :=
            default (default EmptyString (node_opening_hours info))
                    (csv_data ≫= csv_opening_hours) |}.

(** [max(1, max(... for a in self.attractions_dict.values()))]; the inner
    [max] of no value raises. *)
Definition max_comments (r : recommender) : option Q :=
  let counts :=
    (λ a, match csv_comments a.2 with CommentsNumber x => x | _ => 0%Q end)
      <$> map_to_list (attractions_dict r) in
  match counts with
  | [] => None
  | c :: cs => Some (py_max 1 (foldl py_max c cs))
  end.

Definition match_fraction (requested attr : list string) : Q :=
  if decide (requested = []) then 1%Q
  else (inject_Z (Z.of_nat (size (list_to_set requested ∩ list_to_set attr
                                   : gset string)))
        / inject_Z (Z.of_nat (length requested)))%Q.

Definition theme_score (themes themes_attr : list string) : Q :=
  (30 * match_fraction themes themes_attr)%Q.

Definition audience_score (audiences audiences_attr : list string) : Q :=
  (25 * match_fraction audiences audiences_attr)%Q.

(** [[target_area] if target_area else []] *)
Definition target_areas_of (target_area : option string) : list string :=
  match target_area with
  | Some a => if decide (a = EmptyString) then [] else [a]
  | None => []
  end.

Definition area_score (r : recommender) (target_area : option string)
    (address : string) : Q :=
  let area := extract_area_from_address r address in
  match target_areas_of target_area with
  | [] => 20%Q
  | target :: _ =>
      if decide (area ∈ target_areas_of target_area) then 20%Q
      else if decide (area ∈ get_adjacent_areas target) then 14%Q
      else 8%Q
  end.

Definition base_rating_score (rating : Q) : Q := (10 * (rating / 5))%Q.

Definition open_days (r : recommender) (name : string) (date_range : list date)
    : nat :=
  length (filter (λ d, check_opening_status r name d = true) date_range).

Definition open_ratio (r : recommender) (name : string) (date_range : list date)
    : Q :=
  if decide (0 < open_days r name date_range)%nat
  then (inject_Z (Z.of_nat (open_days r name date_range))
        / inject_Z (Z.of_nat (length date_range)))%Q
  else 0%Q.

(** The penalty, or [None] where the source leaves the turn by
    [continue]. *)
Definition open_penalty (r : recommender) (name : string)
    (date_range : list date) : option Q :=
  match date_range with
  | [] => Some 0%Q
  | _ =>
      let ratio := open_ratio r name date_range in
      if Qle_bool ratio 0 then None
      else if Qltb ratio 0.8 then Some (5 - 5 * ratio)%Q
      else Some 0%Q
  end.

Definition comment_bonus (comment_count : Z) : Q :=
  match List.find (λ '(min_c, max_c, _),
                     (min_c <=? comment_count)
                     && match max_c with
                        | Some m => comment_count <? m
                        | None => true
                        end) comment_intervals with
  | Some (_, _, bonus) => bonus
  | None => 0%Q
  end.

Definition seasonal_bonus (themes_attr : list string) (date_range : list date)
    : Q :=
  match date_range with
  | [] => 0%Q
  | first :: _ =>
      let month := date_month first in
      if bool_decide ("冰雪" ∈ themes_attr) && bool_decide (month ∈ [12; 1; 2])
      then 2%Q
      else if bool_decide ("赏花" ∈ themes_attr) && bool_decide (month ∈ [3; 4])
      then 1%Q
      else 0%Q
  end.

(** The six terms before the opening penalty is taken off. *)
Definition score_terms (r : recommender) (themes audiences : list string)
    (target_area : option string) (date_range : list date)
    (node : string) (info : attraction_info) : Q :=
  let themes_attr := get_related_attributes r node "HAS_THEME" in
  let audiences_attr := get_related_attributes r node "SUITABLE_FOR" in
  (theme_score themes themes_attr
   + audience_score audiences audiences_attr
   + area_score r target_area (info_address info)
   + base_rating_score (info_rating info)
   + comment_bonus (info_comment_count info)
   + seasonal_bonus themes_attr date_range)%Q.

(** [raw_score], or [None] for an attraction the loop skips. *)
Definition raw_score (r : recommender) (themes audiences : list string)
    (target_area : option string) (date_range : list date)
    (node : string) (info : attraction_info) : option Q :=
  penalty ← open_penalty r (info_name info) date_range;
  Some (score_terms r themes audiences target_area date_range node info
        - penalty)%Q.

Definition final_score (raw : Q) : Q :=
  let final := py_round1 (1 + 4 * (raw / MAX_RAW_SCORE))%Q in
  py_min 5 (py_max 1 final).

(** One turn of [for attraction in self.get_attractions()]: an
    exception ([None]), a skipped attraction ([Some None]) or a
    candidate. *)
Definition score_attraction (r : recommender) (themes audiences : list string)
    (target_area : option string) (date_range : list date) (node : string)
    : option (option candidate) :=
  info ← get_attraction_info r node;
  Some (raw ← raw_score r themes audiences target_area date_range node info;
        Some (node, final_score raw, info)).

Definition candidates_of (r : recommender) (themes audiences : list string)
    (target_area : option string) (date_range : list date)
    : option (list candidate) :=
  turns ← mapM (score_attraction r themes audiences target_area date_range)
               (get_attractions r);
  Some (omap id turns).

End Recommend.

(** The sort key [(-x[1], -x[2]['comment_count'])] and the order of
    tuples on it. *)
Definition sort_key (c : candidate) : Q * Z :=
  ((- c.1.2)%Q, - info_comment_count c.2).

Definition key_lt (k1 k2 : Q * Z) : bool :=
  Qltb k1.1 k2.1 || (Qeq_bool k1.1 k2.1 && (k1.2 <? k2.2)).

(** [list.sort] is stable: an element goes before the first one whose
    key is strictly greater, and after those with an equal key that came
    before it. *)
Fixpoint insert_by_key (c : candidate) (sorted : list candidate)
    : list candidate :=
  match sorted with
  | [] => [c]
  | c' :: rest =>
      if key_lt (sort_key c') (sort_key c) then c' :: insert_by_key c rest
      else c :: sorted
  end.

Definition sort_candidates (cs : list candidate) : list candidate :=
  foldr insert_by_key [] cs.

(** [recommend(themes, audiences, target_area, date_range, top_n)].  The
    signature's default for [top_n] is 5; the query handler (show.py)
    passes the limit of the form, and [None] when the form gives none. *)
Definition recommend (log1p : nat → Q) (r : recommender)
    (themes audiences : list string) (target_area : option string)
    (date_range : list date) (top_n : option Z) : option (list candidate) :=
  _ ← max_comments r;
  candidates ← candidates_of log1p r themes audiences target_area date_range;
  Some (slice_to top_n (sort_candidates candidates)).

Definition default_top_n : option Z := Some 5.



(** Ranking order: a higher score first, and among equal scores the
    larger comment count first. *)
Definition ranks_before (c1 c2 : candidate) : Prop :=
  (c2.1.2 < c1.1.2)%Q
  ∨ ((c1.1.2 == c2.1.2)%Q ∧ info_comment_count c2.2 ≤ info_comment_count c1.2).

(** What a candidate of a query is: an attraction node of the graph that
    the opening filter keeps, with its score. *)
Definition is_candidate (log1p : nat → Q) (r : recommender)
    (themes audiences : list string) (target_area : option string)
    (date_range : list date) (c : candidate) : Prop :=
  ∃ raw,
    c.1.1 ∈ get_attractions r
    ∧ get_attraction_info log1p r c.1.1 = Some c.2
    ∧ raw_score r themes audiences target_area date_range c.1.1 c.2 = Some raw
    ∧ c.1.2 = final_score raw.

(** *** A small recommender to run the engine on *)

Definition demo_node (id type address : string) : string * kg_node_data :=
  (id, {| node_type := Some type; node_name := None;
          node_address := Some address; node_opening_hours := None |}).

Definition demo_edge (source target relation : string) : kg_edge :=
  {| edge_source := source; edge_target := target;
     edge_relation := Some relation |}.

Definition demo_row (rating : rating_cell) (comments : string) : csv_record :=
  {| csv_rating := rating; csv_comments := CommentsText comments;
     csv_enhanced_address := None; csv_opening_hours := None |}.

Definition demo : recommender :=
  {| kg :=
       {| kg_nodes :=
            [ demo_node "Attraction_A" "Attraction" "云龙区和平路1号";
              demo_node "Attraction_B" "Attraction" "泉山区解放路2号";
              demo_node "Attraction_C" "Attraction" "云龙区湖东路3号";
              demo_node "Attraction_D" "Attraction" "鼓楼区中山路4号";
              demo_node "Attraction_E" "Attraction" "铜山区北京路5号";
              demo_node "Attraction_F" "Attraction" "沛县汉城路6号";
              demo_node "Theme_两汉文化" "Theme" "";
              demo_node "Audience_文化爱好者" "Audience" "" ];
          kg_edges :=
            [ demo_edge "Attraction_A" "Theme_两汉文化" "HAS_THEME";
              demo_edge "Attraction_A" "Audience_文化爱好者" "SUITABLE_FOR";
              demo_edge "Attraction_C" "Theme_两汉文化" "HAS_THEME" ] |};
     attractions_dict :=
       dict_of_items
         [ ("A", demo_row RatingAbsent "10,000,000条点评");
           ("B", demo_row (RatingFloat 4.5) "120");
           ("C", demo_row (RatingFloat 4.8) "3000");
           ("D", demo_row RatingInvalid "");
           ("E", demo_row (RatingFloat 9) "60");
           ("F", demo_row RatingNaN "7") ];
     attractions_df :=
       Some [ ("A", Some "全天开放"); ("B", Some "暂不开放");
              ("C", Some "06/15闭馆"); ("D", None) ];
     areas := ["云龙区"; "泉山区"; "鼓楼区"; "铜山区"; "沛县"] |}.

Definition demo_log1p (k : nat) : Q := inject_Z (Z.of_nat k).

Definition demo_dates : list date :=
  [ {| date_year := 2024; date_month := 6; date_day := 14 |};
    sat_2024_06_15;
    {| date_year := 2024; date_month := 6; date_day := 16 |} ].

(** ** Further code of the recommender and its callers *)


(** [_estimate_total_time(attractions)]: two hours per attraction and the
    legs between consecutive stops, in hours, rounded to one decimal. *)
Definition _estimate_total_time (attractions : list attraction_entry) : Q :=
  let base_time := (inject_Z (Z.of_nat (length attractions)) * 2)%Q in
  let travel_time :=
    foldl (λ travel_time i,
             match attractions !! i, attractions !! (i + 1)%nat with
             | Some stop1, Some stop2 =>
                 let area1 := attr_area stop1 in
                 let area2 := attr_area stop2 in
                 (travel_time
                  + inject_Z (_get_actual_travel_time area1 area2) / 60)%Q
             | _, _ => travel_time
             end)
          0%Q (range 0 (length attractions - 1)) in
  py_round1 (base_time + travel_time).


(** Two candidates tie in the ranking: equal scores and equal comment
    counts. *)
Definition ties_with (c0 c : candidate) : bool :=
  Qeq_bool c.1.2 c0.1.2
  && (info_comment_count c.2 =? info_comment_count c0.2).



(** graph.py, [KnowledgeGraph.add_node]: the identifier
    [f"{node_type}_{name}"] under which a node enters the graph. *)
Definition node_id (node_type name : string) : string :=
  node_type +:+ "_" +:+ name.

(** [s.endswith(suffix)]: some tail of [s] is [suffix]. *)
Fixpoint ends_with (suffix s : string) : bool :=
  String.eqb s suffix ||
  match s with
  | EmptyString => false
  | String _ s' => ends_with suffix s'
  end.



(** ** Path costs under a symmetric cost function *)

Section PathCost.
Variable M : list (list Z).
Hypothesis M_sym : ∀ a b, entry M a b = entry M b a.

Lemma path_cost_app_cons l a r :
  path_cost M (l ++ a :: r) = path_cost M (l ++ [a]) + path_cost M (a :: r).
Proof.
  induction l as [|x [|y l] IH]; simpl in *; [lia..|].
  rewrite IH. lia.
Qed.

Lemma path_cost_rev l : path_cost M (rev l) = path_cost M l.
Proof.
  induction l as [|x [|y l] IH]; [done..|].
  change (rev (x :: y :: l)) with (rev (y :: l) ++ [x]).
  change (rev (y :: l)) with (rev l ++ [y]) in *.
  rewrite <- app_assoc. simpl app.
  rewrite path_cost_app_cons, IH. simpl. rewrite (M_sym y x). lia.
Qed.

Lemma path_cost_middle a seg b rest :
  seg ≠ [] →
  path_cost M (a :: seg ++ b :: rest)
  = entry M a (hd 0%nat seg) + path_cost M seg
    + entry M (List.last seg 0%nat) b + path_cost M (b :: rest).
Proof.
  intros Hne. destruct seg as [|x seg]; [done|]. clear Hne.
  cbn [hd app]. change (path_cost M (a :: x :: seg ++ b :: rest))
    with (entry M a x + path_cost M (x :: seg ++ b :: rest)).
  enough (path_cost M (x :: seg ++ b :: rest)
          = path_cost M (x :: seg) + entry M (List.last (x :: seg) 0%nat) b
            + path_cost M (b :: rest)) by lia.
  revert x. induction seg as [|y seg IH]; intros x.
  - simpl. lia.
  - change (path_cost M (x :: (y :: seg) ++ b :: rest))
      with (entry M x y + path_cost M (y :: seg ++ b :: rest)).
    rewrite IH. simpl. lia.
Qed.

(** Reversing a segment between two fixed neighbours changes the cost
    by the difference of the boundary legs. *)
Lemma path_cost_reverse_middle pre a seg b rest :
  seg ≠ [] →
  path_cost M (pre ++ a :: rev seg ++ b :: rest)
  = path_cost M (pre ++ a :: seg ++ b :: rest)
    + entry M a (List.last seg 0%nat) + entry M (hd 0%nat seg) b
    - entry M a (hd 0%nat seg) - entry M (List.last seg 0%nat) b.
Proof.
  intros Hne.
  assert (Hrev : rev seg ≠ []).
  { intros E. apply Hne. rewrite <- (rev_involutive seg), E. done. }
  rewrite (path_cost_app_cons pre a (rev seg ++ b :: rest)).
  rewrite (path_cost_app_cons pre a (seg ++ b :: rest)).
  rewrite !path_cost_middle by done.
  rewrite path_cost_rev.
  assert (hd 0%nat (rev seg) = List.last seg 0%nat) as ->.
  { destruct seg as [|x seg] using rev_ind; [done|].
    rewrite rev_app_distr, last_last. done. }
  assert (List.last (rev seg) 0%nat = hd 0%nat seg) as ->.
  { destruct seg as [|x seg]; [done|]. simpl. by rewrite last_last. }
  lia.
Qed.
End PathCost.

(** ** The 2-opt scan *)

Lemma two_opt_pairs_bounds n i j :
  (i, j) ∈ two_opt_pairs n → (1 ≤ i ∧ i + 2 ≤ j ∧ j < n)%nat.
Proof.
  unfold two_opt_pairs, range. intros Hin.
  apply list_elem_of_bind in Hin as (i' & Hin & Hi).
  apply list_elem_of_bind in Hin as (j' & Hin & Hj).
  apply elem_of_seq in Hi, Hj.
  case_decide; [by apply elem_of_nil in Hin|].
  apply list_elem_of_singleton in Hin. simplify_eq. lia.
Qed.

Lemma last_lookup_total (l : list nat) :
  List.last l 0%nat = l !!! pred (length l).
Proof.
  induction l as [|x [|y l] IH]; [done..|].
  change (List.last (x :: y :: l) 0%nat) with (List.last (y :: l) 0%nat).
  rewrite IH. done.
Qed.

Lemma reverse_segment_length p i j :
  (i ≤ j < length p)%nat → length (reverse_segment p i j) = length p.
Proof.
  intros Hij. unfold reverse_segment, slice_down.
  rewrite !length_app, length_rev, !length_take, !length_drop. lia.
Qed.

Lemma reverse_segment_Permutation p i j :
  (i ≤ j)%nat → reverse_segment p i j ≡ₚ p.
Proof.
  intros Hij. unfold reverse_segment, slice_down.
  rewrite <- Permutation_rev.
  rewrite <- (take_drop i p) at 4.
  rewrite <- (take_drop (j + 1 - i) (drop i p)) at 2.
  rewrite drop_drop. replace (i + (j + 1 - i))%nat with (j + 1)%nat by lia.
  done.
Qed.

Lemma reverse_segment_head p i j :
  (1 ≤ i)%nat → head (reverse_segment p i j) = head p.
Proof.
  intros Hi. unfold reverse_segment.
  destruct i as [|i]; [lia|]. destruct p as [|x p]; [|done].
  unfold slice_down. by rewrite !drop_nil, !take_nil.
Qed.

(** Both the path and its reversal, closed by node 0, split around the
    segment at the nodes the source reads for [delta]. *)
Lemma reverse_segment_split n p i j :
  length p = n → (1 ≤ i)%nat → (i ≤ j)%nat → (j < n)%nat →
  ∃ pre seg rest,
    p ++ [0%nat] = pre ++ p !!! (i - 1)%nat :: seg ++ succ_node n p j :: rest ∧
    reverse_segment p i j ++ [0%nat]
      = pre ++ p !!! (i - 1)%nat :: rev seg ++ succ_node n p j :: rest ∧
    seg ≠ [] ∧ hd 0%nat seg = p !!! i ∧ List.last seg 0%nat = p !!! j.
Proof.
  intros Hlen Hi Hij Hj.
  set (k := (j + 1 - i)%nat).
  set (seg := take k (drop i p)).
  assert (Hseglen : length seg = k).
  { unfold seg. rewrite length_take, length_drop. lia. }
  assert (Hpre : take i p = take (i - 1) p ++ [p !!! (i - 1)%nat]).
  { replace i with (S (i - 1)) at 1 by lia. apply take_S_r.
    apply list_lookup_lookup_total_lt. lia. }
  assert (Hpost : ∃ rest, drop (j + 1) p ++ [0%nat] = succ_node n p j :: rest).
  { unfold succ_node. case_decide.
    - exists (drop (S (j + 1)) p ++ [0%nat]).
      rewrite (drop_S p (p !!! (j + 1)%nat) (j + 1)); [done|].
      apply list_lookup_lookup_total_lt. lia.
    - exists []. rewrite drop_ge by lia. done. }
  destruct Hpost as [rest Hrest].
  exists (take (i - 1) p), seg, rest. split_and!.
  - rewrite <- (take_drop i p) at 1.
    rewrite <- (take_drop k (drop i p)) at 1.
    rewrite drop_drop. replace (i + k)%nat with (j + 1)%nat by lia.
    rewrite Hpre. fold seg. rewrite <- !app_assoc. simpl.
    by rewrite Hrest.
  - unfold reverse_segment, slice_down. fold k. fold seg.
    rewrite Hpre, <- !app_assoc. simpl. by rewrite Hrest.
  - intros E. rewrite E in Hseglen. simpl in Hseglen. lia.
  - unfold seg. rewrite (drop_S p (p !!! i) i).
    + destruct k eqn:Ek; [lia|]. done.
    + apply list_lookup_lookup_total_lt. lia.
  - rewrite last_lookup_total, Hseglen. unfold seg.
    rewrite lookup_total_take_lt by lia. rewrite lookup_total_drop.
    f_equal. lia.
Qed.

Section TwoOpt.
Variable M : list (list Z).
Variable n : nat.
Hypothesis M_sym : ∀ a b, entry M a b = entry M b a.

Lemma tour_cost_closed p : head p = Some 0%nat → tour_cost M p = path_cost M (p ++ [0%nat]).
Proof. unfold tour_cost. by destruct p as [|x p]; intros [= ->]. Qed.

(** The 2-opt identity: a reversal changes the tour cost by [delta]. *)
Lemma tour_cost_reverse_segment p i j :
  tour_inv n p → (1 ≤ i)%nat → (i ≤ j)%nat → (j < n)%nat →
  tour_cost M (reverse_segment p i j) = tour_cost M p + delta M n p i j.
Proof.
  intros (Hlen & Hhd & _) Hi Hij Hj.
  rewrite !tour_cost_closed by (by rewrite ?reverse_segment_head).
  destruct (reverse_segment_split n p i j) as
    (pre & seg & rest & -> & -> & Hne & Hfirst & Hlast); [done..|].
  rewrite path_cost_reverse_middle by done.
  unfold delta. rewrite Hfirst, Hlast. lia.
Qed.

Lemma reverse_segment_inv p i j :
  tour_inv n p → (1 ≤ i)%nat → (i ≤ j)%nat → (j < n)%nat →
  tour_inv n (reverse_segment p i j).
Proof.
  intros (Hlen & Hhd & Hperm) Hi Hij Hj. split_and!.
  - rewrite reverse_segment_length; lia.
  - by rewrite reverse_segment_head.
  - by rewrite reverse_segment_Permutation.
Qed.

(** A scan over any list of admissible pairs. *)
Lemma two_opt_scan pairs : ∀ p b p' b',
  Forall (λ ij, 1 ≤ ij.1 ∧ ij.1 ≤ ij.2 ∧ ij.2 < n)%nat pairs →
  tour_inv n p →
  foldl (two_opt_step M n) (p, b) pairs = (p', b') →
  tour_inv n p' ∧
  tour_cost M p' ≤ tour_cost M p ∧
  (b = true → b' = true) ∧
  (b = false → b' = true → tour_cost M p' < tour_cost M p) ∧
  (b' = false → p' = p ∧ Forall (λ ij, 0 ≤ delta M n p ij.1 ij.2) pairs).
Proof.
  induction pairs as [|[i j] pairs IH]; intros p b p' b' Hall Hinv Hfold.
  - simpl in Hfold. simplify_eq. split_and!; auto; try lia. congruence.
  - apply Forall_cons in Hall as [(Hi & Hij & Hj) Hall]. simpl in *.
    destruct (Z.ltb_spec (delta M n p i j) 0) as [Hd|Hd].
    + apply IH in Hfold as (Hinv' & Hcost & Htrue & _ & Hfalse);
        [|done|by apply reverse_segment_inv].
      rewrite tour_cost_reverse_segment in Hcost by done.
      specialize (Htrue eq_refl).
      split_and!; [done|lia|done|intros; lia|congruence].
    + apply IH in Hfold as (Hinv' & Hcost & Htrue & Hlt & Hfalse); [|done..].
      split_and!; [done..|].
      intros Hb'. destruct (Hfalse Hb') as [-> Hrest].
      split; [done|]. by apply Forall_cons.
Qed.

Lemma two_opt_pass_spec p p' b :
  tour_inv n p → two_opt_pass M n p = (p', b) →
  tour_inv n p' ∧
  (b = true → tour_cost M p' < tour_cost M p) ∧
  (b = false → p' = p ∧ local_optimum M n p).
Proof.
  intros Hinv Hpass. unfold two_opt_pass in Hpass.
  apply two_opt_scan in Hpass as (Hinv' & _ & _ & Hlt & Hfalse); [|..|done].
  - split_and!; auto.
  - apply Forall_forall. intros [i j] Hin.
    apply two_opt_pairs_bounds in Hin. simpl. lia.
Qed.

(** Whatever the fuel, a result of the loop is a tour, costs no more
    than the start, and is a local optimum of the scan. *)
Lemma two_opt_sound fuel : ∀ p r,
  tour_inv n p → two_opt fuel M n p = Some r →
  tour_inv n r ∧ tour_cost M r ≤ tour_cost M p ∧ local_optimum M n r.
Proof.
  induction fuel as [|fuel IH]; intros p r Hinv Hrun; [done|].
  simpl in Hrun. destruct (two_opt_pass M n p) as [p' b] eqn:Hpass.
  apply two_opt_pass_spec in Hpass as (Hinv' & Hlt & Hfalse); [|done].
  destruct b.
  - apply IH in Hrun as (? & ? & ?); [|done].
    specialize (Hlt eq_refl). split_and!; [done|lia|done].
  - destruct (Hfalse eq_refl) as [-> Hopt]. simplify_eq.
    split_and!; [done|lia|done].
Qed.

(** More fuel does not change a result. *)
Lemma two_opt_fuel_mono fuel : ∀ fuel' p r,
  two_opt fuel M n p = Some r → (fuel ≤ fuel')%nat →
  two_opt fuel' M n p = Some r.
Proof.
  induction fuel as [|fuel IH]; intros fuel' p r Hrun Hle; [done|].
  destruct fuel' as [|fuel']; [lia|]. simpl in *.
  destruct (two_opt_pass M n p) as [p' b]. destruct b; [|done].
  apply IH; [done|lia].
Qed.

Hypothesis M_nonneg : ∀ a b, 0 ≤ entry M a b.

Lemma path_cost_nonneg l : 0 ≤ path_cost M l.
Proof.
  induction l as [|x [|y l] IH]; simpl in *; [lia..|].
  specialize (M_nonneg x y). lia.
Qed.

(** The tour cost drops by at least one per pass that improves, so the
    cost of the start bounds the number of passes. *)
Lemma two_opt_terminates fuel : ∀ p,
  tour_inv n p → (Z.to_nat (tour_cost M p) < fuel)%nat →
  is_Some (two_opt fuel M n p).
Proof.
  induction fuel as [|fuel IH]; intros p Hinv Hfuel; [lia|].
  simpl. destruct (two_opt_pass M n p) as [p' b] eqn:Hpass.
  apply two_opt_pass_spec in Hpass as (Hinv' & Hlt & _); [|done].
  destruct b; [|done].
  apply IH; [done|]. specialize (Hlt eq_refl).
  pose proof (path_cost_nonneg (p' ++ [hd 0%nat p'])).
  unfold tour_cost in *. lia.
Qed.
End TwoOpt.

(** ** The travel-time table *)

(** The table after the mirroring loop, read off by evaluation: every
    entry has its mirror image with the same value. *)
Lemma travel_times_mirrored :
  map_Forall (λ k t, travel_times !! (k.2, k.1) = Some t) travel_times.
Proof. apply (bool_decide_unpack _). vm_compute. reflexivity. Qed.

Lemma travel_times_from_literal :
  map_Forall (λ k t, (k, t) ∈ travel_times_literal
                     ∨ ((k.2, k.1), t) ∈ travel_times_literal) travel_times.
Proof. apply (bool_decide_unpack _). vm_compute. reflexivity. Qed.

Lemma travel_times_of_literal :
  Forall (λ it, travel_times !! it.1 = Some it.2
                ∧ travel_times !! (it.1.2, it.1.1) = Some it.2
                ∧ it.1.1 ≠ it.1.2) travel_times_literal.
Proof. apply (bool_decide_unpack _). vm_compute. reflexivity. Qed.

Lemma travel_times_nonneg :
  map_Forall (λ _ t, 0 ≤ t) travel_times.
Proof. apply (bool_decide_unpack _). vm_compute. reflexivity. Qed.

Lemma travel_times_lookup_sym a b :
  travel_times !! (a, b) = travel_times !! (b, a).
Proof.
  destruct (travel_times !! (a, b)) as [t|] eqn:Hab.
  - apply travel_times_mirrored in Hab. done.
  - destruct (travel_times !! (b, a)) as [t|] eqn:Hba; [|done].
    apply travel_times_mirrored in Hba. simpl in Hba. congruence.
Qed.

Lemma get_travel_time_sym a b : get_travel_time a b = get_travel_time b a.
Proof.
  unfold get_travel_time. rewrite travel_times_lookup_sym.
  repeat case_decide; congruence.
Qed.

Lemma get_travel_time_nonneg a b : 0 ≤ get_travel_time a b.
Proof.
  unfold get_travel_time. case_decide; [lia|].
  destruct (travel_times !! (a, b)) as [t|] eqn:Hab; simpl; [|lia].
  by apply travel_times_nonneg in Hab.
Qed.

Lemma _get_actual_travel_time_sym a b :
  _get_actual_travel_time a b = _get_actual_travel_time b a.
Proof.
  unfold _get_actual_travel_time. rewrite get_travel_time_sym.
  repeat case_decide; congruence.
Qed.

Lemma _get_actual_travel_time_nonneg a b : 0 ≤ _get_actual_travel_time a b.
Proof.
  unfold _get_actual_travel_time. pose proof (get_travel_time_nonneg a b).
  case_decide; lia.
Qed.

(** C8.  The travel-time lookup is symmetric for every pair of areas: a
    pair listed in the table reads the table's value in both directions,
    an area paired with itself reads 0, and a pair listed in neither
    direction reads the default of 90 minutes both ways. *)
Theorem get_travel_time_symmetric (a b : string) :
  get_travel_time a b = get_travel_time b a
  ∧ (∀ t, ((a, b), t) ∈ travel_times_literal →
          get_travel_time a b = t ∧ get_travel_time b a = t)
  ∧ get_travel_time a a = 0
  ∧ (a ≠ b →
     (∀ t, ((a, b), t) ∉ travel_times_literal) →
     (∀ t, ((b, a), t) ∉ travel_times_literal) →
     get_travel_time a b = 90 ∧ get_travel_time b a = 90).
Proof.
  split_and!.
  - apply get_travel_time_sym.
  - intros t Hin.
    pose proof travel_times_of_literal as Hall.
    rewrite Forall_forall in Hall. apply Hall in Hin as (Hab & Hba & Hne).
    simpl in *. unfold get_travel_time.
    rewrite !decide_False by congruence. by rewrite Hab, Hba.
  - unfold get_travel_time. by rewrite decide_True.
  - intros Hne Hab Hba.
    assert (travel_times !! (a, b) = None) as Hnone.
    { destruct (travel_times !! (a, b)) as [t|] eqn:E; [|done].
      apply travel_times_from_literal in E as [E|E]; simpl in E.
      - by apply Hab in E.
      - by apply Hba in E. }
    unfold get_travel_time. rewrite !decide_False by congruence.
    by rewrite (travel_times_lookup_sym b a), Hnone.
Qed.

(** ** Nearest-neighbour seed *)

Lemma min_by_elem key x xs : min_by key x xs ∈ x :: xs.
Proof.
  revert x. induction xs as [|y ys IH]; intros x; simpl.
  - apply list_elem_of_here.
  - destruct (key y <? key x).
    + apply list_elem_of_further, IH.
    + specialize (IH x). apply elem_of_cons in IH as [->|IH].
      * apply list_elem_of_here.
      * by do 2 apply list_elem_of_further.
Qed.

Lemma filter_ne_notin (x : nat) (l : list nat) :
  x ∉ l → filter (λ y, y ≠ x) l = l.
Proof.
  induction l as [|y l IH]; intros Hx; [done|].
  apply not_elem_of_cons in Hx as [Hne Hx].
  rewrite filter_cons_True by congruence. by rewrite IH.
Qed.

Lemma remove_by_filter (x : nat) (l : list nat) :
  NoDup l → x ∈ l → l ≡ₚ x :: filter (λ y, y ≠ x) l.
Proof.
  induction l as [|y l IH]; intros Hnd Hin; [by apply elem_of_nil in Hin|].
  apply NoDup_cons in Hnd as [Hy Hnd].
  destruct (decide (y = x)) as [->|Hne].
  - rewrite filter_cons_False by (intros ?; congruence).
    by rewrite filter_ne_notin.
  - rewrite filter_cons_True by done.
    apply elem_of_cons in Hin as [->|Hin]; [done|].
    rewrite (IH Hnd Hin) at 1. apply perm_swap.
Qed.

Lemma nearest_neighbor_loop_spec M turns : ∀ path unvisited,
  NoDup unvisited → length unvisited = turns →
  ∃ tail, nearest_neighbor_loop M turns path unvisited = path ++ tail
          ∧ tail ≡ₚ unvisited.
Proof.
  induction turns as [|turns IH]; intros path unvisited Hnd Hlen.
  - destruct unvisited; [|done]. exists []. by rewrite app_nil_r.
  - destruct unvisited as [|u us]; [done|]. cbn [nearest_neighbor_loop].
    set (next_node := min_by _ u us).
    assert (Hin : next_node ∈ u :: us) by apply min_by_elem.
    pose proof (remove_by_filter next_node (u :: us) Hnd Hin) as Hperm.
    destruct (IH (path ++ [next_node])
                 (filter (λ x, x ≠ next_node) (u :: us))) as (tail & -> & Htail).
    + by apply NoDup_filter.
    + apply Permutation_length in Hperm. simpl in *. lia.
    + exists (next_node :: tail). split.
      * by rewrite <- app_assoc.
      * by rewrite Hperm, Htail.
Qed.

Lemma nearest_neighbor_inv M n :
  (1 ≤ n)%nat → tour_inv n (nearest_neighbor M n).
Proof.
  intros Hn. unfold nearest_neighbor, range.
  destruct (nearest_neighbor_loop_spec M (length (seq 1 (n - 1))) [0%nat]
              (seq 1 (n - 1))) as (tail & -> & Htail);
    [apply NoDup_seq|done|].
  unfold tour_inv.
  replace (seq 0 n) with (0%nat :: seq 1 (n - 1))
    by (destruct n; [lia|]; simpl; do 2 f_equal; lia).
  split_and!.
  - simpl. rewrite (Permutation_length Htail), length_seq. lia.
  - done.
  - simpl. by rewrite Htail.
Qed.

(** ** The cost matrix of a selection *)

Lemma entry_time_matrix attractions a b :
  entry (time_matrix attractions) a b =
  match attractions !! a, attractions !! b with
  | Some x, Some y => _get_actual_travel_time (attr_area x) (attr_area y)
  | _, _ => 0
  end.
Proof.
  unfold entry, time_matrix.
  rewrite !list_lookup_fmap.
  destruct (attractions !! a) as [x|]; simpl; [|done].
  rewrite !list_lookup_fmap.
  by destruct (attractions !! b) as [y|].
Qed.

Lemma time_matrix_sym attractions a b :
  entry (time_matrix attractions) a b = entry (time_matrix attractions) b a.
Proof.
  rewrite !entry_time_matrix.
  destruct (attractions !! a), (attractions !! b); try done.
  apply _get_actual_travel_time_sym.
Qed.

Lemma time_matrix_nonneg attractions a b :
  0 ≤ entry (time_matrix attractions) a b.
Proof.
  rewrite entry_time_matrix.
  destruct (attractions !! a), (attractions !! b); try lia.
  apply _get_actual_travel_time_nonneg.
Qed.

Lemma time_matrix_length attractions :
  length (time_matrix attractions) = length attractions.
Proof. unfold time_matrix. by rewrite !length_map. Qed.

(** ** Reading the selection back through the optimized indices *)

Lemma omap_lookup_seq {A} (l : list A) :
  omap (λ i, l !! i) (seq 0 (length l)) = l.
Proof.
  induction l as [|x l IH] using rev_ind; [done|].
  rewrite length_app, Nat.add_1_r, seq_S, omap_app. simpl.
  rewrite list_lookup_middle by done. simpl. f_equal.
  rewrite <- IH at 2. apply list_omap_ext, Forall_Forall2_diag, Forall_forall.
  intros i Hi. apply elem_of_seq in Hi. by rewrite lookup_app_l by lia.
Qed.

Lemma mapM_omap {A B} (f : A → option B) l k :
  mapM f l = Some k → omap f l = k.
Proof.
  intros H. apply mapM_Some in H.
  induction H as [|x y l k Hxy ? IH]; [done|]. csimpl. by rewrite Hxy, IH.
Qed.

Lemma mapM_lookup_Permutation {A} (l : list A) indices out :
  indices ≡ₚ seq 0 (length l) →
  mapM (λ i, l !! i) indices = Some out → out ≡ₚ l.
Proof.
  intros Hperm Hmap. apply mapM_omap in Hmap as <-.
  by rewrite Hperm, omap_lookup_seq.
Qed.

Lemma mapM_lookup_is_Some {A} (l : list A) indices :
  indices ≡ₚ seq 0 (length l) → is_Some (mapM (λ i, l !! i) indices).
Proof.
  intros Hperm. apply mapM_is_Some, Forall_forall. intros i Hi.
  rewrite Hperm in Hi. apply elem_of_seq in Hi.
  apply lookup_lt_is_Some. simpl. lia.
Qed.

Lemma mapM_lookup_head {A} (l : list A) indices out :
  head indices = Some 0%nat →
  mapM (λ i, l !! i) indices = Some out → head out = head l.
Proof.
  intros Hhd Hmap. apply mapM_Some in Hmap.
  destruct Hmap as [|i x ? ? Hi _]; [done|].
  simpl in Hhd. simplify_eq. simpl. by rewrite head_lookup.
Qed.

(** ** [_solve_tsp] on the cost matrix of a selection *)

Lemma _solve_tsp_terminates attractions :
  ∃ fuel, is_Some (_solve_tsp fuel (time_matrix attractions)).
Proof.
  set (M := time_matrix attractions).
  exists (S (Z.to_nat (tour_cost M (nearest_neighbor M (length M))))).
  unfold _solve_tsp. fold M. case_decide; [done|].
  apply two_opt_terminates.
  - apply time_matrix_sym.
  - apply time_matrix_nonneg.
  - apply nearest_neighbor_inv. lia.
  - lia.
Qed.

Lemma _solve_tsp_inv attractions fuel indices :
  (2 ≤ length attractions)%nat →
  _solve_tsp fuel (time_matrix attractions) = Some indices →
  tour_inv (length attractions) indices.
Proof.
  intros Hlen. unfold _solve_tsp. rewrite time_matrix_length.
  rewrite decide_False by lia. intros Hrun.
  eapply two_opt_sound in Hrun as (? & _); [done|apply time_matrix_sym|].
  apply nearest_neighbor_inv. lia.
Qed.

(** ** The route optimizer *)

Lemma _optimize_route_short fuel attractions :
  (length attractions ≤ 2)%nat →
  _optimize_route fuel attractions = Some attractions.
Proof. intros Hlen. unfold _optimize_route. by rewrite decide_True. Qed.

Lemma _optimize_route_long fuel attractions out :
  (2 < length attractions)%nat →
  _optimize_route fuel attractions = Some out →
  ∃ indices, _solve_tsp fuel (time_matrix attractions) = Some indices
             ∧ tour_inv (length attractions) indices
             ∧ mapM (λ i, attractions !! i) indices = Some out.
Proof.
  intros Hlen. unfold _optimize_route. rewrite decide_False by lia.
  intros Hrun. apply bind_Some in Hrun as (indices & Htsp & Hmap).
  exists indices. split_and!; [done| |done].
  eapply _solve_tsp_inv; [lia|done].
Qed.

Lemma _optimize_route_terminates attractions :
  ∃ fuel out, _optimize_route fuel attractions = Some out.
Proof.
  destruct (decide (length attractions ≤ 2)%nat) as [Hlen|Hlen].
  - exists 0%nat, attractions. by apply _optimize_route_short.
  - destruct (_solve_tsp_terminates attractions) as (fuel & indices & Htsp).
    pose proof (_solve_tsp_inv attractions fuel indices) as Hinv.
    destruct Hinv as (_ & _ & Hperm); [lia|done|].
    destruct (mapM_lookup_is_Some attractions indices Hperm) as [out Hout].
    exists fuel, out. unfold _optimize_route.
    rewrite decide_False by done. rewrite Htsp. done.
Qed.

(** C6.  The route optimizer returns, and what it returns is a
    permutation of the attractions it was given; a selection of at most
    two attractions comes back unchanged. *)
Theorem optimize_route_permutation (attractions : list attraction_entry) :
  (∃ fuel out, _optimize_route fuel attractions = Some out)
  ∧ (∀ fuel out, _optimize_route fuel attractions = Some out →
       out ≡ₚ attractions
       ∧ ((length attractions ≤ 2)%nat → out = attractions)).
Proof.
  split; [apply _optimize_route_terminates|].
  intros fuel out Hrun.
  destruct (decide (length attractions ≤ 2)%nat) as [Hlen|Hlen].
  - rewrite _optimize_route_short in Hrun by done. by simplify_eq.
  - apply _optimize_route_long in Hrun as (indices & _ & Hinv & Hmap); [|lia].
    destruct Hinv as (_ & _ & Hperm).
    split; [|lia]. by eapply mapM_lookup_Permutation.
Qed.


Lemma nearest_neighbor_short M n :
  (n ≤ 1)%nat → nearest_neighbor M n = [0%nat].
Proof. intros Hn. by destruct n as [|[|n]]; [..|lia]. Qed.

Lemma two_opt_pairs_short n : (n ≤ 3)%nat → two_opt_pairs n = [].
Proof. intros Hn. by destruct n as [|[|[|[|n]]]]; [..|lia]. Qed.


(** The sum of the legs between consecutive stops alone, without the leg
    back to the first stop, is not what the scan lowers: on [five_stops]
    it grows from 135 to 175 minutes while the tour cost drops from 255
    to 225. *)
Example five_stops_costs :
  let M := time_matrix five_stops in
  let seed := nearest_neighbor M 5 in
  seed = [0; 1; 2; 3; 4]%nat
  ∧ _solve_tsp 3 M = Some [0; 1; 4; 3; 2]%nat
  ∧ path_cost M seed = 135 ∧ path_cost M [0; 1; 4; 3; 2]%nat = 175
  ∧ tour_cost M seed = 255 ∧ tour_cost M [0; 1; 4; 3; 2]%nat = 225.
Proof. vm_compute. done. Qed.

(** C10.  For a selection of three or more attractions the optimized
    route starts with the attraction the selection starts with: the
    nearest-neighbour tour starts at index 0, and a reversal of the scan
    leaves position 0 alone. *)
Theorem optimize_route_keeps_first (attractions : list attraction_entry) :
  (3 ≤ length attractions)%nat →
  (∃ fuel out, _optimize_route fuel attractions = Some out)
  ∧ (∀ fuel out, _optimize_route fuel attractions = Some out →
       head out = head attractions)
  ∧ head (nearest_neighbor (time_matrix attractions) (length attractions))
    = Some 0%nat
  ∧ (∀ path i j, (i, j) ∈ two_opt_pairs (length attractions) →
       head (reverse_segment path i j) = head path).
Proof.
  intros Hlen. split_and!.
  - apply _optimize_route_terminates.
  - intros fuel out Hrun.
    apply _optimize_route_long in Hrun as (indices & _ & Hinv & Hmap); [|lia].
    destruct Hinv as (_ & Hhd & _). by eapply mapM_lookup_head.
  - apply nearest_neighbor_inv. lia.
  - intros path i j Hin. apply two_opt_pairs_bounds in Hin.
    apply reverse_segment_head. lia.
Qed.

Lemma optimize_route_keeps_first_witness :
  (3 ≤ length five_stops)%nat
  ∧ ∀ fuel out, _optimize_route fuel five_stops = Some out →
      head out = head five_stops.
Proof.
  assert (H : (3 ≤ length five_stops)%nat) by (simpl; lia).
  split; [exact H|].
  exact (proj1 (proj2 (optimize_route_keeps_first five_stops H))).
Defined.

(** ** Day grouping *)

Lemma enumerate_snoc {A} (xs : list A) x :
  enumerate (xs ++ [x]) = enumerate xs ++ [(length xs, x)].
Proof.
  unfold enumerate. rewrite imap_app. simpl.
  by rewrite Nat.add_0_r.
Qed.

Lemma daily_attractions_snoc {D A} (date_range : list D) (xs : list A) x :
  daily_attractions date_range (xs ++ [x])
  = alter (λ day, day ++ [x]) (length xs mod length date_range)%nat
      (daily_attractions date_range xs).
Proof.
  unfold daily_attractions. by rewrite enumerate_snoc, foldl_snoc.
Qed.

Lemma daily_attractions_length {D A} (date_range : list D) (xs : list A) :
  length (daily_attractions date_range xs) = length date_range.
Proof.
  induction xs as [|x xs IH] using rev_ind.
  - unfold daily_attractions. simpl. by rewrite length_fmap.
  - by rewrite daily_attractions_snoc, length_alter.
Qed.

Lemma daily_attractions_lookup {D A} (date_range : list D) (xs : list A) d :
  (d < length date_range)%nat →
  daily_attractions date_range xs !! d
  = Some (round_robin_group (length date_range) d xs).
Proof.
  intros Hd. induction xs as [|x xs IH] using rev_ind.
  - unfold daily_attractions. simpl. rewrite list_lookup_fmap.
    destruct (lookup_lt_is_Some_2 date_range d Hd) as [day ->]. done.
  - rewrite daily_attractions_snoc. unfold round_robin_group.
    rewrite enumerate_snoc, filter_app, fmap_app.
    destruct (decide (length xs mod length date_range = d)%nat) as [E|E].
    + rewrite E, list_lookup_alter_eq, IH. simpl.
      rewrite filter_cons_True by done. done.
    + rewrite list_lookup_alter_ne by done. rewrite IH.
      rewrite filter_cons_False by done. simpl. by rewrite app_nil_r.
Qed.

(** C9.  Over a non-empty date range the composer builds one group per
    date, paired with the dates in order; the group of day [d] holds the
    attractions at the indices [i] with [i mod len(date_range) = d], in
    route order, so [attractions_info[i]] lands in day [i mod
    len(date_range)]. *)
Theorem daily_attractions_round_robin {D A} (date_range : list D)
    (attractions_info : list A) :
  date_range ≠ [] →
  length (daily_attractions date_range attractions_info) = length date_range
  ∧ (day_groups date_range attractions_info).*1 = date_range
  ∧ (∀ d, (d < length date_range)%nat →
       daily_attractions date_range attractions_info !! d
       = Some (round_robin_group (length date_range) d attractions_info))
  ∧ (∀ i attr, attractions_info !! i = Some attr →
       ∃ day, daily_attractions date_range attractions_info
                !! (i mod length date_range)%nat = Some day
              ∧ attr ∈ day).
Proof.
  intros Hne.
  assert (Hpos : (0 < length date_range)%nat) by (destruct date_range; [done|simpl; lia]).
  split_and!.
  - apply daily_attractions_length.
  - unfold day_groups. apply fst_zip. by rewrite daily_attractions_length.
  - intros d Hd. by apply daily_attractions_lookup.
  - intros i attr Hi.
    eexists. split.
    + apply daily_attractions_lookup. apply Nat.mod_upper_bound. lia.
    + unfold round_robin_group. apply list_elem_of_fmap.
      exists (i, attr). split; [done|].
      apply list_elem_of_filter. split; [done|].
      apply list_elem_of_lookup. exists i. unfold enumerate.
      rewrite list_lookup_imap, Hi. done.
Qed.

Lemma daily_attractions_round_robin_witness :
  demo_dates ≠ []
  ∧ daily_attractions demo_dates five_stops !! 1%nat
    = Some (round_robin_group (length demo_dates) 1 five_stops).
Proof.
  assert (H : demo_dates ≠ []) by discriminate.
  split; [exact H|].
  refine (proj1 (proj2 (proj2
            (daily_attractions_round_robin demo_dates five_stops H))) 1%nat _).
  simpl. lia.
Defined.

(** Five stops over three days: stops 0 and 3 on the first day, 1 and 4
    on the second, 2 on the third. *)
Example five_stops_three_days :
  (λ day : date * list attraction_entry, (day.1, map attr_name day.2))
    <$> day_groups demo_dates five_stops
  = zip demo_dates [["a"; "d"]; ["b"; "e"]; ["c"]].
Proof. reflexivity. Qed.

(** ** The opening-hours evaluator *)

Lemma contains_nil_r sub : sub ≠ EmptyString → contains sub EmptyString = false.
Proof. by destruct sub. Qed.

(** C3, as the code has it.  For a text with a closed marker (不开放 or
    闭馆) the evaluator answers closed when the text contains 不开放 or
    the [%m/%d] token of the requested date, and open otherwise; a text
    that also carries the all-day marker is open.  In particular a text
    with 不开放 and no all-day marker is closed on every date. *)
Theorem closed_marker_hours (s : string) (visit_date : option date) :
  contains "不开放" s || contains "闭馆" s = true →
  parse_opening_hours (Some s) visit_date
  = Some (contains "全天开放" s
          || negb (contains "不开放" s || date_listed s visit_date))
  ∧ (contains "不开放" s = true → contains "全天开放" s = false →
     parse_opening_hours (Some s) visit_date = Some false).
Proof.
  intros Hmark.
  assert (Hne : s ≠ EmptyString).
  { intros ->. by rewrite !contains_nil_r in Hmark. }
  unfold parse_opening_hours. rewrite decide_False by done. rewrite Hmark.
  split.
  - destruct (contains "全天开放" s); [done|].
    destruct (date_listed s visit_date); simpl.
    + by rewrite orb_true_r.
    + by rewrite orb_false_r.
  - intros -> ->. by destruct (date_listed s visit_date).
Qed.

Lemma closed_marker_hours_witness :
  contains "不开放" "暂不开放" || contains "闭馆" "暂不开放" = true
  ∧ parse_opening_hours (Some "暂不开放") (Some sat_2024_06_15) = Some false.
Proof.
  assert (H : contains "不开放" "暂不开放" || contains "闭馆" "暂不开放" = true)
    by reflexivity.
  split; [exact H|].
  exact (proj2 (closed_marker_hours "暂不开放" (Some sat_2024_06_15) H)
           eq_refl eq_refl).
Defined.

(** C3 as the specification states it does not hold: a text with 闭馆 and
    without the date's token is open, and a text with 闭馆 and the date's
    token is closed. *)
Lemma closed_marker_counterexample :
  (contains "闭馆" "周一闭馆" = true
   ∧ contains (strftime_md sat_2024_06_15) "周一闭馆" = false
   ∧ parse_opening_hours (Some "周一闭馆") (Some sat_2024_06_15) = Some true)
  ∧ (contains "闭馆" "06/15闭馆" = true
     ∧ contains (strftime_md sat_2024_06_15) "06/15闭馆" = true
     ∧ parse_opening_hours (Some "06/15闭馆") (Some sat_2024_06_15) = Some false).
Proof. vm_compute. done. Qed.

Lemma rule_step_not_false d rule : rule_step d rule ≠ Return false.
Proof. unfold rule_step. repeat case_match; congruence. Qed.

Lemma rules_loop_not_false d rules : rules_loop d rules ≠ Return false.
Proof.
  induction rules as [|rule rules IH]; [done|]. simpl.
  pose proof (rule_step_not_false d rule).
  destruct (rule_step d rule); congruence.
Qed.

(** On a rule list the evaluator never answers closed: it answers open
    or raises. *)
Lemma parse_opening_hours_rule_list s visit_date :
  contains "不开放" s || contains "闭馆" s = false →
  parse_opening_hours (Some s) visit_date ≠ Some false.
Proof.
  intros Hmark. unfold parse_opening_hours. rewrite Hmark.
  pose proof (rules_loop_not_false) as Hloop.
  repeat case_match; congruence.
Qed.

(** C4 at its failing input.  The text is a rule list of one rule whose
    range, January, does not hold 15 June 2024, and the token 06/15 does
    not occur in it; the evaluator answers open. *)
Theorem rule_list_hours_failing_input :
  let s := "01/01-01/31 09:00-17:00" in
  contains "全天开放" s = false
  ∧ contains "不开放" s || contains "闭馆" s = false
  ∧ rules_of s = [s]
  ∧ _date_in_range sat_2024_06_15 "01/01" "01/31" = false
  ∧ rule_step sat_2024_06_15 s = Continue
  ∧ contains (strftime_md sat_2024_06_15) s = false
  ∧ parse_opening_hours (Some s) (Some sat_2024_06_15) = Some true.
Proof. vm_compute. done. Qed.

(** ** Rational arithmetic of the scores *)

Lemma Qltb_lt a b : Qltb a b = true ↔ (a < b)%Q.
Proof.
  unfold Qltb. rewrite negb_true_iff, <- not_true_iff_false, Qle_bool_iff.
  split; [apply Qnot_le_lt|apply Qlt_not_le].
Qed.

Lemma Qltb_ge a b : Qltb a b = false ↔ (b <= a)%Q.
Proof.
  unfold Qltb. rewrite negb_false_iff, Qle_bool_iff. done.
Qed.

Global Instance Qltb_comp : Proper (Qeq ==> Qeq ==> eq) Qltb.
Proof.
  intros a a' Ha b b' Hb.
  destruct (Qltb a b) eqn:E, (Qltb a' b') eqn:E'; try done.
  - apply Qltb_lt in E. apply Qltb_ge in E'. rewrite Ha, Hb in E.
    exfalso. by eapply Qlt_not_le.
  - apply Qltb_ge in E. apply Qltb_lt in E'. rewrite Ha, Hb in E.
    exfalso. by eapply Qlt_not_le.
Qed.



Lemma py_clamp_bounds lo hi x :
  (lo <= hi)%Q → (lo <= py_min hi (py_max lo x) <= hi)%Q.
Proof.
  intros Hlh. unfold py_min, py_max.
  destruct (Qltb lo x) eqn:E1.
  - apply Qltb_lt in E1. destruct (Qltb x hi) eqn:E2.
    + apply Qltb_lt in E2. split; by apply Qlt_le_weak.
    + split; [done|apply Qle_refl].
  - destruct (Qltb lo hi) eqn:E2.
    + apply Qltb_lt in E2. split; [apply Qle_refl|by apply Qlt_le_weak].
    + split; [done|apply Qle_refl].
Qed.




(** ** Ranking *)

Lemma key_lt_true c' c :
  key_lt (sort_key c') (sort_key c) = true → ranks_before c' c.
Proof.
  unfold key_lt, sort_key, ranks_before. simpl.
  intros [H|[H1 H2]%andb_true_iff]%orb_true_iff.
  - apply Qltb_lt in H. left. lra.
  - apply Qeq_bool_iff in H1. apply Z.ltb_lt in H2. right. split; [lra|lia].
Qed.

Lemma key_lt_false c' c :
  key_lt (sort_key c') (sort_key c) = false → ranks_before c c'.
Proof.
  unfold key_lt, sort_key, ranks_before. simpl.
  intros [H1 H2]%orb_false_iff. apply Qltb_ge in H1.
  destruct (Qeq_bool (- c'.1.2) (- c.1.2)) eqn:E.
  - apply Qeq_bool_iff in E. simpl in H2. apply Z.ltb_ge in H2.
    right. split; [lra|lia].
  - apply Qeq_bool_neq in E. left. lra.
Qed.

Global Instance ranks_before_trans : Transitive ranks_before.
Proof.
  intros a b c [H1|[H1 H1']] [H2|[H2 H2']]; unfold ranks_before.
  - left. lra.
  - left. lra.
  - left. lra.
  - right. split; [lra|lia].
Qed.

Lemma insert_by_key_Permutation c sorted :
  insert_by_key c sorted ≡ₚ c :: sorted.
Proof.
  induction sorted as [|c' rest IH]; [done|]. simpl.
  destruct (key_lt (sort_key c') (sort_key c)); [|done].
  rewrite IH. apply perm_swap.
Qed.

Lemma sort_candidates_Permutation cs : sort_candidates cs ≡ₚ cs.
Proof.
  induction cs as [|c cs IH]; [done|]. simpl.
  by rewrite insert_by_key_Permutation, IH.
Qed.

Lemma insert_by_key_sorted c sorted :
  StronglySorted ranks_before sorted →
  StronglySorted ranks_before (insert_by_key c sorted).
Proof.
  induction 1 as [|c' rest Hsorted IH Hall]; simpl.
  - repeat constructor.
  - destruct (key_lt (sort_key c') (sort_key c)) eqn:E.
    + apply key_lt_true in E. constructor; [done|].
      rewrite insert_by_key_Permutation. by constructor.
    + apply key_lt_false in E. constructor; [by constructor|].
      constructor; [done|].
      eapply Forall_impl; [done|]. intros c'' ?. by etrans.
Qed.

Lemma sort_candidates_sorted cs :
  StronglySorted ranks_before (sort_candidates cs).
Proof.
  induction cs as [|c cs IH]; simpl; [constructor|].
  by apply insert_by_key_sorted.
Qed.


(** ** The candidates of a query *)

Section RecommendFacts.
Variable log1p : nat → Q.
Variable r : recommender.
Variables themes audiences : list string.
Variable target_area : option string.
Variable date_range : list date.

Local Abbreviation is_cand :=
  (is_candidate log1p r themes audiences target_area date_range).

Lemma kg_node_is_Some node :
  node ∈ get_attractions r → is_Some (kg_node (kg r) node).
Proof.
  unfold get_attractions, kg_node. intros Hin.
  apply list_elem_of_fmap in Hin as ([id data] & -> & Hin).
  apply list_elem_of_filter in Hin as [_ Hin]. simpl.
  destruct (List.find _ (kg_nodes (kg r))) as [nd|] eqn:E; [by eexists|].
  apply list_elem_of_In in Hin.
  eapply find_none in E; [|done]. simpl in E.
  by rewrite bool_decide_eq_false in E.
Qed.

Lemma get_attraction_info_is_Some node :
  node ∈ get_attractions r → is_Some (get_attraction_info log1p r node).
Proof.
  intros [data Hdata]%kg_node_is_Some.
  unfold get_attraction_info. rewrite Hdata. by eexists.
Qed.

Lemma candidates_of_is_Some :
  is_Some (candidates_of log1p r themes audiences target_area date_range).
Proof.
  unfold candidates_of.
  destruct (mapM _ (get_attractions r)) as [turns|] eqn:E; [by eexists|].
  apply mapM_None in E. apply Exists_exists in E as (node & Hin & Hnone).
  apply get_attraction_info_is_Some in Hin as [info Hinfo].
  unfold score_attraction in Hnone. by rewrite Hinfo in Hnone.
Qed.

Lemma candidates_of_spec cs c :
  candidates_of log1p r themes audiences target_area date_range = Some cs →
  c ∈ cs ↔ is_cand c.
Proof.
  unfold candidates_of. intros Hcs.
  apply bind_Some in Hcs as (turns & Hturns & [= <-]).
  apply mapM_Some in Hturns.
  rewrite list_elem_of_omap. split.
  - intros (turn & Hin & Hid). simpl in Hid. subst turn.
    apply list_elem_of_lookup in Hin as [i Hi].
    destruct (Forall2_lookup_r _ _ _ _ _ Hturns Hi) as (node & Hnode & Hscore).
    unfold score_attraction in Hscore.
    apply bind_Some in Hscore as (info & Hinfo & [= Hraw]).
    apply bind_Some in Hraw as (raw & Hraw & [= <-]).
    exists raw. simpl. split_and!; [|done..].
    by eapply list_elem_of_lookup_2.
  - intros (raw & Hnode & Hinfo & Hraw & Hscore).
    apply list_elem_of_lookup in Hnode as [i Hi].
    destruct (Forall2_lookup_l _ _ _ _ _ Hturns Hi) as (turn & Hturn & Hstep).
    exists turn. split; [by eapply list_elem_of_lookup_2|].
    unfold score_attraction in Hstep. rewrite Hinfo in Hstep. simpl in Hstep.
    rewrite Hraw in Hstep. simpl in Hstep. simplify_eq. simpl.
    destruct c as [[node score] info]. simpl in *. by subst.
Qed.

Lemma max_comments_is_Some :
  attractions_dict r ≠ ∅ → is_Some (max_comments r).
Proof.
  intros Hne. unfold max_comments.
  destruct (map_to_list (attractions_dict r)) as [|kv kvs] eqn:E.
  - by apply map_to_list_empty_iff in E.
  - by eexists.
Qed.

(** With a record store that is not empty, [recommend] returns the
    ranked candidates cut at [top_n]. *)
Lemma recommend_is_Some top_n :
  attractions_dict r ≠ ∅ →
  ∃ cs, candidates_of log1p r themes audiences target_area date_range = Some cs
        ∧ recommend log1p r themes audiences target_area date_range top_n
          = Some (slice_to top_n (sort_candidates cs)).
Proof.
  intros [m Hm]%max_comments_is_Some.
  destruct candidates_of_is_Some as [cs Hcs].
  exists cs. split; [done|]. unfold recommend. by rewrite Hm, Hcs.
Qed.


End RecommendFacts.

(** ** The scoring engine *)

Lemma demo_dict_nonempty : attractions_dict demo ≠ ∅.
Proof.
  intros E.
  assert (H : attractions_dict demo !! "A" = None) by (rewrite E; apply lookup_empty).
  vm_compute in H. discriminate H.
Defined.



(** The extremes the specification names, on [demo]: attraction A has
    10,000,000 comments and no rating; its rating is synthesized and its
    score stays in range. *)
Example demo_extremes :
  (λ c, (c.1.1, Qred c.1.2, info_comment_count c.2, Qred (info_rating c.2)))
    <$> head (default []
        (recommend demo_log1p demo ["两汉文化"] ["文化爱好者"] None [] None))
  = Some ("Attraction_A", 4.7%Q, 10000000, (19 # 4)%Q).
Proof. vm_compute. reflexivity. Qed.

(** C2, as the code has it.  With a record store that is not empty,
    [recommend] ranks the candidates of the query by score, the higher
    first, and by comment count among equal scores, the larger first.  A
    limit N ≥ 0 keeps the first N of them, the limit [None] keeps them
    all, and a call that leaves the limit out takes the default of the
    signature, 5. *)
Theorem recommend_ranked (log1p : nat → Q) (r : recommender)
    (themes audiences : list string) (target_area : option string)
    (date_range : list date) :
  attractions_dict r ≠ ∅ →
  ∃ candidates ranked,
    candidates_of log1p r themes audiences target_area date_range
    = Some candidates
    ∧ (∀ c, c ∈ candidates
            ↔ is_candidate log1p r themes audiences target_area date_range c)
    ∧ ranked ≡ₚ candidates
    ∧ StronglySorted ranks_before ranked
    ∧ recommend log1p r themes audiences target_area date_range None
      = Some ranked
    ∧ (∀ N : Z, 0 ≤ N →
         recommend log1p r themes audiences target_area date_range (Some N)
         = Some (take (Z.to_nat N) ranked))
    ∧ recommend log1p r themes audiences target_area date_range default_top_n
      = Some (take 5 ranked).
Proof.
  intros Hne.
  destruct (recommend_is_Some log1p r themes audiences target_area date_range
              None Hne) as (cs & Hcs & Hrec).
  exists cs, (sort_candidates cs). split_and!.
  - done.
  - intros c. by apply candidates_of_spec.
  - apply sort_candidates_Permutation.
  - apply sort_candidates_sorted.
  - done.
  - intros N HN.
    destruct (recommend_is_Some log1p r themes audiences target_area date_range
                (Some N) Hne) as (cs' & Hcs' & ->).
    simplify_eq. unfold slice_to.
    by rewrite (proj2 (Z.leb_le 0 N)).
  - destruct (recommend_is_Some log1p r themes audiences target_area date_range
                default_top_n Hne) as (cs' & Hcs' & ->).
    by simplify_eq.
Qed.

Lemma recommend_ranked_witness :
  attractions_dict demo ≠ ∅
  ∧ ∃ candidates ranked,
      candidates_of demo_log1p demo ["两汉文化"] ["文化爱好者"] None []
      = Some candidates
      ∧ ranked ≡ₚ candidates
      ∧ StronglySorted ranks_before ranked
      ∧ recommend demo_log1p demo ["两汉文化"] ["文化爱好者"] None [] None
        = Some ranked.
Proof.
  split; [exact demo_dict_nonempty|].
  destruct (recommend_ranked demo_log1p demo ["两汉文化"] ["文化爱好者"] None []
              demo_dict_nonempty)
    as (candidates & ranked & H1 & _ & H3 & H4 & H5 & _).
  exists candidates, ranked. by split_and!.
Defined.

(** C2 as the specification states it does not hold: on [demo] all six
    attractions are candidates of the query, and the call that leaves the
    limit out returns five of them. *)
Lemma recommend_default_limit_counterexample :
  length <$> candidates_of demo_log1p demo ["两汉文化"] ["文化爱好者"] None []
  = Some 6%nat
  ∧ length <$> recommend demo_log1p demo ["两汉文化"] ["文化爱好者"] None []
                 default_top_n
    = Some 5%nat
  ∧ length <$> recommend demo_log1p demo ["两汉文化"] ["文化爱好者"] None [] None
    = Some 6%nat.
Proof. vm_compute. done. Qed.

(** ** The opening filter *)

Lemma open_ratio_closed r name date_range :
  open_days r name date_range = 0%nat → open_ratio r name date_range = 0%Q.
Proof. intros H. unfold open_ratio. rewrite H. by rewrite decide_False by lia. Qed.





(** The query of the witness, evaluated: B, closed on the three days, is
    absent; C, open on two of them, carries the penalty 5 × (1 − 2/3). *)
Example demo_opening_filter :
  (λ c, (c.1.1, Qred c.1.2)) <$>
    default [] (recommend demo_log1p demo [] [] (Some "云龙区") demo_dates None)
  = [ ("Attraction_A", 4.7%Q); ("Attraction_C", (23 # 5)%Q);
      ("Attraction_D", 4.1%Q); ("Attraction_E", 4%Q);
      ("Attraction_F", (18 # 5)%Q) ]
  ∧ (λ name, Qred (open_ratio demo name demo_dates)) <$> ["A"; "B"; "C"]
    = [1%Q; 0%Q; (2 # 3)%Q]
  ∧ open_penalty demo "C" demo_dates = Some (5 - 5 * (2 # 3))%Q.
Proof. vm_compute. done. Qed.

(** * Further properties of the code *)

(** ** Area tables *)

Lemma travel_times_range :
  map_Forall (λ _ t, 15 ≤ t ≤ 60) travel_times.
Proof. apply (bool_decide_unpack _). vm_compute. reflexivity. Qed.

Lemma get_travel_time_ne_range a b :
  a ≠ b → 15 ≤ get_travel_time a b ≤ 90.
Proof.
  intros Hne. unfold get_travel_time. rewrite decide_False by done.
  destruct (travel_times !! (a, b)) as [t|] eqn:Hab; simpl; [|lia].
  apply travel_times_range in Hab. simpl in Hab. lia.
Qed.

Lemma _get_actual_travel_time_eq a b :
  a = b → _get_actual_travel_time a b = 15.
Proof. intros ->. unfold _get_actual_travel_time. by rewrite decide_True. Qed.

Lemma _get_actual_travel_time_ne a b :
  a ≠ b → 45 ≤ _get_actual_travel_time a b ≤ 120.
Proof.
  intros Hne. pose proof (get_travel_time_ne_range a b Hne).
  unfold _get_actual_travel_time. rewrite decide_False by done. lia.
Qed.

(** X1.  The travel time between two areas is 0 exactly when they are the
    same area; between different areas it lies between 15 and 90 minutes,
    90 being the answer for a pair the table does not list. *)
Theorem get_travel_time_zero_iff (a b : string) :
  (get_travel_time a b = 0 ↔ a = b)
  ∧ (a ≠ b → 15 ≤ get_travel_time a b ≤ 90)
  ∧ (a ≠ b → travel_times !! (a, b) = None → get_travel_time a b = 90).
Proof.
  split_and!.
  - split.
    + intros Hz. destruct (decide (a = b)) as [|Hne]; [done|].
      pose proof (get_travel_time_ne_range a b Hne). lia.
    + intros ->. unfold get_travel_time. by rewrite decide_True.
  - apply get_travel_time_ne_range.
  - intros Hne Hnone. unfold get_travel_time.
    rewrite decide_False by done. by rewrite Hnone.
Qed.

(** X2.  The time charged between two stops is 15 minutes exactly when
    they lie in the same area, and between 45 and 120 minutes otherwise;
    it is the same in both directions. *)
Theorem actual_travel_time_range (a b : string) :
  (_get_actual_travel_time a b = 15 ↔ a = b)
  ∧ (a ≠ b → 45 ≤ _get_actual_travel_time a b ≤ 120)
  ∧ _get_actual_travel_time a b = _get_actual_travel_time b a.
Proof.
  split_and!.
  - split; [|apply _get_actual_travel_time_eq].
    intros H15. destruct (decide (a = b)) as [|Hne]; [done|].
    pose proof (_get_actual_travel_time_ne a b Hne). lia.
  - apply _get_actual_travel_time_ne.
  - apply _get_actual_travel_time_sym.
Qed.

Lemma adjacent_areas_listed :
  map_Forall (λ a neighbours,
                Forall (λ b, is_Some (travel_times !! (a, b))) neighbours)
             adjacent_areas.
Proof. apply (bool_decide_unpack _). vm_compute. reflexivity. Qed.

Lemma travel_times_adjacent :
  map_Forall (λ k _, k.2 ∈ get_adjacent_areas k.1) travel_times.
Proof. apply (bool_decide_unpack _). vm_compute. reflexivity. Qed.

Lemma get_adjacent_areas_listed a b :
  b ∈ get_adjacent_areas a ↔ is_Some (travel_times !! (a, b)).
Proof.
  split.
  - unfold get_adjacent_areas.
    destruct (adjacent_areas !! a) as [neighbours|] eqn:E; simpl.
    + intros Hin. apply adjacent_areas_listed in E.
      rewrite Forall_forall in E. by apply E.
    + by intros ?%elem_of_nil.
  - intros [t Ht]. by apply travel_times_adjacent in Ht.
Qed.

(** X3.  Adjacency of areas is symmetric, and two areas are adjacent
    exactly when the travel-time table lists the pair; an area is never
    adjacent to itself. *)
Theorem get_adjacent_areas_symmetric (a b : string) :
  (b ∈ get_adjacent_areas a ↔ a ∈ get_adjacent_areas b)
  ∧ (b ∈ get_adjacent_areas a ↔ is_Some (travel_times !! (a, b)))
  ∧ a ∉ get_adjacent_areas a.
Proof.
  split_and!.
  - by rewrite !get_adjacent_areas_listed, travel_times_lookup_sym.
  - apply get_adjacent_areas_listed.
  - rewrite get_adjacent_areas_listed. intros [t Ht].
    pose proof travel_times_from_literal as Hlit.
    pose proof travel_times_of_literal as Hall. rewrite Forall_forall in Hall.
    apply Hlit in Ht as [Ht|Ht]; apply Hall in Ht as (_ & _ & Hne); by simpl in *.
Qed.

(** X4.  The cost matrix of a selection of n attractions is n by n and
    symmetric; its diagonal is 15, and every entry is 15 for two stops of
    one area and between 45 and 120 otherwise. *)
Theorem time_matrix_shape (attractions : list attraction_entry) :
  length (time_matrix attractions) = length attractions
  ∧ Forall (λ row, length row = length attractions) (time_matrix attractions)
  ∧ (∀ i j, entry (time_matrix attractions) i j
            = entry (time_matrix attractions) j i)
  ∧ (∀ i x, attractions !! i = Some x →
            entry (time_matrix attractions) i i = 15)
  ∧ (∀ i j x y, attractions !! i = Some x → attractions !! j = Some y →
       (attr_area x = attr_area y → entry (time_matrix attractions) i j = 15)
       ∧ (attr_area x ≠ attr_area y →
          45 ≤ entry (time_matrix attractions) i j ≤ 120)).
Proof.
  split_and!.
  - apply time_matrix_length.
  - unfold time_matrix. apply Forall_forall. intros row Hrow.
    apply list_elem_of_fmap in Hrow as (start & -> & _).
    by rewrite !length_map.
  - apply time_matrix_sym.
  - intros i x Hi. rewrite entry_time_matrix, Hi.
    by apply _get_actual_travel_time_eq.
  - intros i j x y Hi Hj. rewrite entry_time_matrix, Hi, Hj. split.
    + apply _get_actual_travel_time_eq.
    + apply _get_actual_travel_time_ne.
Qed.

(** ** Nearest neighbour and 2-opt *)





Lemma two_opt_pass_four M p :
  (∀ a b, entry M a b = entry M b a) → tour_inv 4 p →
  two_opt_pass M 4 p = (p, false).
Proof.
  intros Hsym (Hlen & Hhd & _).
  unfold two_opt_pass. change (two_opt_pairs 4) with [(1, 3)%nat]. simpl.
  assert (delta M 4 p 1 3 = 0) as ->; [|done].
  unfold delta, succ_node. simpl.
  destruct p as [|p0 p]; [done|]. simpl in Hhd. simplify_eq. simpl.
  rewrite (Hsym (p !!! 2%nat) 0%nat), (Hsym 0%nat (p !!! 0%nat)). lia.
Qed.

(** X6.  For a selection of at most four attractions the 2-opt loop
    changes nothing: with any fuel it ends after one pass, and the route
    is the nearest-neighbour tour. *)
Theorem solve_tsp_small (attractions : list attraction_entry) (fuel : nat) :
  (length attractions ≤ 4)%nat → (1 ≤ fuel)%nat →
  _solve_tsp fuel (time_matrix attractions)
  = Some (nearest_neighbor (time_matrix attractions) (length attractions)).
Proof.
  intros Hlen Hfuel. unfold _solve_tsp. rewrite time_matrix_length.
  case_decide as Hn; [by rewrite nearest_neighbor_short|].
  destruct fuel as [|fuel]; [lia|]. simpl.
  set (M := time_matrix attractions).
  set (seed := nearest_neighbor M (length attractions)).
  assert (Hinv : tour_inv (length attractions) seed)
    by (apply nearest_neighbor_inv; lia).
  destruct (decide (length attractions = 4)%nat) as [E|E].
  - rewrite E in *. rewrite two_opt_pass_four; [done| |done].
    apply time_matrix_sym.
  - unfold two_opt_pass. rewrite two_opt_pairs_short by lia. done.
Qed.

Lemma solve_tsp_small_witness :
  (length (take 4 five_stops) ≤ 4)%nat ∧ (1 ≤ 1)%nat
  ∧ _solve_tsp 1 (time_matrix (take 4 five_stops)) = Some [0; 1; 2; 3]%nat.
Proof.
  assert (H1 : (length (take 4 five_stops) ≤ 4)%nat) by (simpl; lia).
  assert (H2 : (1 ≤ 1)%nat) by lia.
  split; [exact H1|]. split; [exact H2|].
  exact (solve_tsp_small (take 4 five_stops) 1 H1 H2).
Defined.

(** ** Rounding *)






(** Rounding moves a number by at most half a unit. *)
Lemma round_half_even_near x :
  (x - (1 # 2) <= inject_Z (round_half_even x) <= x + (1 # 2))%Q.
Proof.
  pose proof (Qfloor_le x) as Hlo. pose proof (Qlt_floor x) as Hhi.
  unfold round_half_even.
  destruct (Qcompare_spec (x - inject_Z (Qfloor x)) (1 # 2)) as [H|H|H];
    [destruct (Z.even (Qfloor x))|..];
    rewrite ?inject_Z_plus in *; change (inject_Z 1) with 1%Q in *;
    revert Hlo Hhi H; generalize (inject_Z (Qfloor x)); intros q Hlo Hhi H; lra.
Qed.




(** ** Estimated visiting time *)










(** Ordering the route does not guarantee a lower estimate: there is
    a selection whose estimated total time is higher for the optimized
    route than for the selection as given. *)
Example optimize_route_may_raise_estimate :
  ∃ attractions fuel out,
    _optimize_route fuel attractions = Some out
    ∧ (_estimate_total_time attractions < _estimate_total_time out)%Q.
Proof.
  exists five_stops, 3%nat.
  eexists. split; [vm_compute; reflexivity|]. by vm_compute.
Qed.

(** ** The terms of the score *)

Lemma nat_fraction_range (k n : nat) :
  (k ≤ n)%nat → (0 < n)%nat →
  (0 <= inject_Z (Z.of_nat k) / inject_Z (Z.of_nat n) <= 1)%Q
  ∧ ((0 < k)%nat → (0 < inject_Z (Z.of_nat k) / inject_Z (Z.of_nat n))%Q).
Proof.
  intros Hkn Hn.
  assert (Hn' : (0 < inject_Z (Z.of_nat n))%Q).
  { change 0%Q with (inject_Z 0). rewrite <- Zlt_Qlt. lia. }
  split_and!.
  - apply Qle_shift_div_l; [done|]. rewrite Qmult_0_l.
    change 0%Q with (inject_Z 0). rewrite <- Zle_Qle. lia.
  - apply Qle_shift_div_r; [done|]. rewrite Qmult_1_l.
    rewrite <- Zle_Qle. lia.
  - intros Hk. apply Qlt_shift_div_l; [done|]. rewrite Qmult_0_l.
    change 0%Q with (inject_Z 0). rewrite <- Zlt_Qlt. lia.
Qed.




Lemma digit_value_range c d : digit_value c = Some d → 0 ≤ d ≤ 9.
Proof.
  unfold digit_value. case_match eqn:E; [|done]. intros [= <-].
  apply andb_true_iff in E as [E1 E2].
  apply Nat.leb_le in E1, E2. lia.
Qed.

Lemma foldl_digits_nonneg ds : ∀ acc,
  0 ≤ acc → Forall (λ d, 0 ≤ d) ds →
  0 ≤ foldl (λ acc d, 10 * acc + d) acc ds.
Proof.
  induction ds as [|d ds IH]; intros acc Hacc Hds; [done|].
  apply Forall_cons in Hds as [Hd Hds]. simpl. apply IH; [lia|done].
Qed.

Lemma digits_value_nonneg s : 0 ≤ digits_value s.
Proof.
  unfold digits_value. apply foldl_digits_nonneg; [lia|].
  apply Forall_forall. intros d Hd.
  apply list_elem_of_omap in Hd as (c & _ & Hc).
  apply digit_value_range in Hc. lia.
Qed.

Section InfoFacts.
Variable log1p : nat → Q.

Lemma get_attraction_info_rating_range r node info :
  get_attraction_info log1p r node = Some info →
  (1 <= info_rating info <= 5)%Q.
Proof.
  unfold get_attraction_info. intros H.
  apply bind_Some in H as (data & _ & [= <-]). simpl.
  destruct (default RatingAbsent _) as [|x| |[]|].
  - match goal with |- context [py_min 95 (py_max 60 ?x)] =>
      pose proof (py_clamp_bounds 60 95 x) as Hb end.
    specialize (Hb ltac:(by vm_compute)).
    unfold Qdiv. change (/ 20)%Q with (1 # 20)%Q. lra.
  - by apply py_clamp_bounds.
  - by vm_compute.
  - by vm_compute.
  - by vm_compute.
  - by vm_compute.
Qed.

(** X14.  Whatever the rating cell holds, the rating of an attraction's
    info is between 1.0 and 5.0; a missing rating is synthesized between
    3.0 and 4.75, whatever the graph looks like.  The comment count is
    never negative, and it is 0 unless the cell is a text. *)
Theorem get_attraction_info_bounds (r : recommender) (node : string)
    (info : attraction_info) :
  get_attraction_info log1p r node = Some info →
  (1 <= info_rating info <= 5)%Q
  ∧ 0 ≤ info_comment_count info
  ∧ (default RatingAbsent (csv_rating <$> attractions_dict r !! info_name info)
     = RatingAbsent → (3 <= info_rating info <= 4.75)%Q)
  ∧ ((∀ s, csv_comments <$> attractions_dict r !! info_name info
           ≠ Some (CommentsText s)) → info_comment_count info = 0).
Proof.
  intros H. split; [by eapply get_attraction_info_rating_range|].
  unfold get_attraction_info in H.
  apply bind_Some in H as (data & _ & [= <-]). simpl. split_and!.
  - repeat case_match; try lia. apply digits_value_nonneg.
  - intros ->.
    match goal with |- context [py_min 95 (py_max 60 ?x)] =>
      pose proof (py_clamp_bounds 60 95 x) as Hb end.
    specialize (Hb ltac:(by vm_compute)).
    unfold Qdiv. change (/ 20)%Q with (1 # 20)%Q. lra.
  - intros Hno. repeat case_match; try done. exfalso. by eapply Hno.
Qed.

End InfoFacts.

Lemma get_attraction_info_bounds_witness :
  ∃ info, get_attraction_info demo_log1p demo "Attraction_A" = Some info
          ∧ (1 <= info_rating info <= 5)%Q.
Proof.
  destruct (get_attraction_info demo_log1p demo "Attraction_A") as [info|] eqn:E.
  - exists info. split; [reflexivity|].
    exact (proj1 (get_attraction_info_bounds demo_log1p demo "Attraction_A"
                    info E)).
  - vm_compute in E. discriminate E.
Defined.

Local Ltac decide_tests :=
  repeat match goal with
  | |- context [Z.leb ?a ?b] =>
      first [ rewrite (proj2 (Z.leb_le a b)) by lia
            | rewrite (proj2 (Z.leb_gt a b)) by lia ]
  | |- context [Z.ltb ?a ?b] =>
      first [ rewrite (proj2 (Z.ltb_lt a b)) by lia
            | rewrite (proj2 (Z.ltb_ge a b)) by lia ]
  end.

Lemma comment_bonus_cases c :
  (c < 0 ∧ comment_bonus c = 0%Q)
  ∨ (0 ≤ c < 50 ∧ comment_bonus c = 1%Q)
  ∨ (50 ≤ c < 200 ∧ comment_bonus c = 2%Q)
  ∨ (200 ≤ c < 1000 ∧ comment_bonus c = 4%Q)
  ∨ (1000 ≤ c < 5000 ∧ comment_bonus c = 6%Q)
  ∨ (5000 ≤ c ∧ comment_bonus c = 8%Q).
Proof.
  assert (c < 0 ∨ 0 ≤ c < 50 ∨ 50 ≤ c < 200 ∨ 200 ≤ c < 1000
          ∨ 1000 ≤ c < 5000 ∨ 5000 ≤ c) as Hcase by lia.
  unfold comment_bonus, comment_intervals. cbn [List.find].
  destruct Hcase as [H|[H|[H|[H|[H|H]]]]]; decide_tests; cbn [andb].
  - left. done.
  - right; left. done.
  - do 2 right; left. done.
  - do 3 right; left. done.
  - do 4 right; left. done.
  - do 5 right. done.
Qed.

(** X17.  The comment bonus is a step function of the comment count that
    never decreases: 1, 2, 4, 6 and 8 points from 0, 50, 200, 1000 and
    5000 comments on, so between 1 and 8 for every count that is not
    negative. *)
Theorem comment_bonus_monotone (c1 c2 : Z) :
  c1 ≤ c2 →
  (comment_bonus c1 <= comment_bonus c2)%Q
  ∧ (0 ≤ c1 → (1 <= comment_bonus c1 <= 8)%Q)
  ∧ (5000 ≤ c1 → comment_bonus c1 = 8%Q).
Proof.
  intros Hle.
  destruct (comment_bonus_cases c1) as [[? ->]|[[? ->]|[[? ->]|[[? ->]|[[? ->]|[? ->]]]]]];
  destruct (comment_bonus_cases c2) as [[? ->]|[[? ->]|[[? ->]|[[? ->]|[[? ->]|[? ->]]]]]];
    try (exfalso; lia);
    (split_and!; [by vm_compute|intros; try (exfalso; lia); by vm_compute
                 |intros; try (exfalso; lia); done]).
Qed.

Lemma comment_bonus_monotone_witness :
  60 ≤ 10000000 ∧ (comment_bonus 60 <= comment_bonus 10000000)%Q.
Proof.
  assert (H : 60 ≤ 10000000) by lia.
  split; [exact H|]. exact (proj1 (comment_bonus_monotone 60 10000000 H)).
Defined.



(** *** The opening penalty *)

Lemma open_days_le r name date_range :
  (open_days r name date_range ≤ length date_range)%nat.
Proof. unfold open_days. apply length_filter. Qed.

Lemma open_ratio_range r name date_range :
  (0 <= open_ratio r name date_range <= 1)%Q
  ∧ ((0 < open_days r name date_range)%nat →
     (0 < open_ratio r name date_range)%Q).
Proof.
  unfold open_ratio. pose proof (open_days_le r name date_range) as Hle.
  case_decide as Hpos.
  - apply nat_fraction_range; lia.
  - split; [by vm_compute|lia].
Qed.

(** X16.  Without requested dates there is no penalty.  With requested
    dates the attraction is skipped exactly when it is open on none of
    them; otherwise the penalty is 0 when it is open on at least 80% of
    the days, and 5 × (1 − fraction), which then lies strictly between 1
    and 5, when it is open on fewer. *)
Theorem open_penalty_cases (r : recommender) (name : string)
    (date_range : list date) :
  (date_range = [] → open_penalty r name date_range = Some 0%Q)
  ∧ (date_range ≠ [] →
     (open_penalty r name date_range = None
      ↔ open_days r name date_range = 0%nat)
     ∧ (∀ p, open_penalty r name date_range = Some p →
          let fraction := open_ratio r name date_range in
          (p = 0%Q ∧ (0.8 <= fraction <= 1)%Q)
          ∨ ((p == 5 * (1 - fraction))%Q ∧ (1 < p < 5)%Q
             ∧ (0 < fraction < 0.8)%Q))).
Proof.
  split; [by intros ->|]. intros Hne.
  pose proof (open_ratio_range r name date_range) as [[Hlo Hhi] Hpos].
  unfold open_penalty. destruct date_range as [|d ds]; [done|].
  set (dates := d :: ds) in *.
  destruct (Qle_bool (open_ratio r name dates) 0) eqn:E0.
  - apply Qle_bool_iff in E0. split.
    + split; [|done]. intros _.
      destruct (decide (open_days r name dates = 0%nat)) as [|Hn]; [done|].
      assert (0 < open_ratio r name dates)%Q by (apply Hpos; lia). lra.
    + intros p [=].
  - apply not_true_iff_false in E0. rewrite Qle_bool_iff in E0.
    assert (0 < open_ratio r name dates)%Q as Hgt by lra. split.
    + split; [by destruct (Qltb _ 0.8)|]. intros Hz.
      rewrite (open_ratio_closed _ _ _ Hz) in Hgt. lra.
    + intros p. destruct (Qltb (open_ratio r name dates) 0.8) eqn:E8.
      * apply Qltb_lt in E8. intros [= <-]. right.
        split_and!; [ring|lra..].
      * apply Qltb_ge in E8. intros [= <-]. left. split; [done|lra].
Qed.


(** ** The range of the score *)








(** ** What [recommend] returns *)





Lemma slice_to_sublist {A} top_n (xs : list A) :
  slice_to top_n xs `sublist_of` xs.
Proof.
  unfold slice_to. destruct top_n as [k|]; [|done].
  destruct (0 <=? k); apply sublist_take.
Qed.



(** On [demo] the limit −2 leaves the four best of the six candidates. *)
Example demo_negative_limit :
  (λ c : candidate, c.1.1) <$>
    default [] (recommend demo_log1p demo ["两汉文化"] ["文化爱好者"] None []
                  (Some (-2)))
  = ["Attraction_A"; "Attraction_C"; "Attraction_E"; "Attraction_B"].
Proof. vm_compute. reflexivity. Qed.

(** *** No attraction twice *)

Lemma get_attractions_NoDup r :
  NoDup (kg_nodes (kg r)).*1 → NoDup (get_attractions r).
Proof.
  intros Hnd. unfold get_attractions.
  apply (sublist_NoDup _ (kg_nodes (kg r)).*1); [done|].
  apply fmap_sublist, sublist_filter.
Qed.

Lemma candidates_of_sublist log1p r themes audiences target_area date_range cs :
  candidates_of log1p r themes audiences target_area date_range = Some cs →
  cs.*1.*1 `sublist_of` get_attractions r.
Proof.
  unfold candidates_of. intros H.
  apply bind_Some in H as (turns & Hturns & [= <-]).
  apply mapM_Some in Hturns.
  induction Hturns as [|node turn nodes turns Hstep _ IH]; [done|].
  csimpl. destruct turn as [c|]; csimpl.
  - unfold score_attraction in Hstep.
    apply bind_Some in Hstep as (info & _ & [= Hraw]).
    apply bind_Some in Hraw as (raw & _ & [= <-]). simpl.
    by apply sublist_skip.
  - by apply sublist_cons.
Qed.

(** X22.  When the node identifiers of the graph are distinct, no
    attraction appears twice in a result of [recommend]. *)
Theorem recommend_NoDup (log1p : nat → Q) (r : recommender)
    (themes audiences : list string) (target_area : option string)
    (date_range : list date) (top_n : option Z) (result : list candidate) :
  NoDup (kg_nodes (kg r)).*1 →
  recommend log1p r themes audiences target_area date_range top_n = Some result →
  NoDup result.*1.*1.
Proof.
  intros Hnd Hrec. unfold recommend in Hrec.
  apply bind_Some in Hrec as (m & _ & Hrec).
  apply bind_Some in Hrec as (cs & Hcs & [= <-]).
  apply (sublist_NoDup _ (sort_candidates cs).*1.*1).
  - rewrite (sort_candidates_Permutation cs).
    apply (sublist_NoDup _ (get_attractions r)).
    + by apply get_attractions_NoDup.
    + by eapply candidates_of_sublist.
  - do 2 apply fmap_sublist. apply slice_to_sublist.
Qed.

Lemma recommend_NoDup_witness :
  NoDup (kg_nodes (kg demo)).*1
  ∧ ∃ result,
      recommend demo_log1p demo [] [] (Some "云龙区") demo_dates None
      = Some result
      ∧ NoDup result.*1.*1.
Proof.
  assert (H : NoDup (kg_nodes (kg demo)).*1).
  { apply (bool_decide_unpack _). vm_compute. exact I. }
  split; [exact H|].
  destruct (recommend demo_log1p demo [] [] (Some "云龙区") demo_dates None)
    as [result|] eqn:E.
  - exists result. split; [reflexivity|].
    exact (recommend_NoDup demo_log1p demo [] [] (Some "云龙区") demo_dates None
             result H E).
  - vm_compute in E. discriminate E.
Defined.

(** *** Ties *)

Lemma ties_with_key_lt c0 c c' :
  ties_with c0 c = true → ties_with c0 c' = true →
  key_lt (sort_key c') (sort_key c) = false.
Proof.
  unfold ties_with, key_lt, sort_key. simpl.
  intros [H1 H2]%andb_true_iff [H1' H2']%andb_true_iff.
  apply Qeq_bool_iff in H1, H1'. apply Z.eqb_eq in H2, H2'.
  apply orb_false_iff. split.
  - apply Qltb_ge. lra.
  - apply andb_false_iff. right. apply Z.ltb_ge. lia.
Qed.

Lemma insert_by_key_ties c0 c sorted :
  filter (λ x, ties_with c0 x = true) (insert_by_key c sorted)
  = filter (λ x, ties_with c0 x = true) (c :: sorted).
Proof.
  induction sorted as [|c' rest IH]; [done|]. simpl.
  destruct (key_lt (sort_key c') (sort_key c)) eqn:E; [|done].
  destruct (ties_with c0 c') eqn:Ec'.
  - destruct (ties_with c0 c) eqn:Ec.
    + by rewrite (ties_with_key_lt c0 c c' Ec Ec') in E.
    + rewrite (filter_cons_True _ c') by done.
      rewrite (filter_cons_False _ c) by (by rewrite Ec).
      rewrite (filter_cons_True _ c') by done.
      rewrite IH. by rewrite (filter_cons_False _ c) by (by rewrite Ec).
  - rewrite (filter_cons_False _ c') by (by rewrite Ec').
    rewrite IH.
    destruct (ties_with c0 c) eqn:Ec.
    + rewrite !(filter_cons_True _ c) by done.
      by rewrite (filter_cons_False _ c') by (by rewrite Ec').
    + rewrite !(filter_cons_False _ c) by (by rewrite Ec).
      by rewrite (filter_cons_False _ c') by (by rewrite Ec').
Qed.

(** X23.  The ranking is stable: candidates that tie on score and comment
    count keep the order in which the loop over the graph's attraction
    nodes produced them. *)
Theorem sort_candidates_stable (cs : list candidate) (c0 : candidate) :
  filter (λ c, ties_with c0 c = true) (sort_candidates cs)
  = filter (λ c, ties_with c0 c = true) cs.
Proof.
  induction cs as [|c cs IH]; [done|]. simpl.
  rewrite insert_by_key_ties.
  destruct (ties_with c0 c) eqn:Ec.
  - rewrite !(filter_cons_True _ c) by done. by rewrite IH.
  - rewrite !(filter_cons_False _ c) by (by rewrite Ec). done.
Qed.

(** *** The query handler *)



(** ** When the evaluator answers closed, and when it raises *)

Lemma closed_marker_hours_aux s visit_date :
  contains "不开放" s || contains "闭馆" s = true →
  parse_opening_hours (Some s) visit_date
  = Some (contains "全天开放" s
          || negb (contains "不开放" s || date_listed s visit_date))
  ∧ s ≠ EmptyString.
Proof.
  intros Hmark.
  assert (Hne : s ≠ EmptyString).
  { intros ->. by rewrite !contains_nil_r in Hmark. }
  split; [|done].
  unfold parse_opening_hours. rewrite decide_False by done. rewrite Hmark.
  destruct (contains "全天开放" s); [done|].
  destruct (date_listed s visit_date); simpl.
  - by rewrite orb_true_r.
  - by rewrite orb_false_r.
Qed.

Lemma parse_opening_hours_false_iff hours visit_date :
  parse_opening_hours hours visit_date = Some false
  ↔ ∃ s, hours = Some s
         ∧ contains "全天开放" s = false
         ∧ (contains "不开放" s = true
            ∨ (contains "闭馆" s = true ∧ date_listed s visit_date = true)).
Proof.
  split.
  - destruct hours as [s|]; [|done]. intros H. exists s. split; [done|].
    destruct (contains "不开放" s || contains "闭馆" s) eqn:Emark.
    + destruct (closed_marker_hours_aux s visit_date Emark) as [Heq _].
      rewrite Heq in H. injection H as H.
      apply orb_false_iff in H as [Hall H]. split; [done|].
      apply negb_false_iff in H.
      destruct (contains "不开放" s) eqn:E1; [by left|]. right.
      simpl in *. done.
    + exfalso. by apply (parse_opening_hours_rule_list s visit_date Emark).
  - intros (s & -> & Hall & Hclosed).
    assert (Hmark : contains "不开放" s || contains "闭馆" s = true).
    { destruct Hclosed as [->|[-> _]]; [done|apply orb_true_r]. }
    destruct (closed_marker_hours_aux s visit_date Hmark) as [Heq _].
    rewrite Heq, Hall. simpl. f_equal.
    destruct Hclosed as [->|[_ ->]]; [done|]. by rewrite orb_true_r.
Qed.

Lemma parse_opening_hours_raises hours visit_date :
  parse_opening_hours hours visit_date = None →
  ∃ s d, hours = Some s ∧ visit_date = Some d
         ∧ contains "全天开放" s = false
         ∧ contains "不开放" s || contains "闭馆" s = false
         ∧ rules_loop d (rules_of s) = Raise.
Proof.
  destruct hours as [s|]; [|done]. unfold parse_opening_hours.
  case_decide; [done|].
  destruct (contains "全天开放" s) eqn:Eall; [done|].
  destruct (contains "不开放" s || contains "闭馆" s) eqn:Emark.
  { by destruct (date_listed s visit_date). }
  destruct visit_date as [d|]; [|done].
  destruct (rules_loop d (rules_of s)) eqn:E; [by case_match|done|].
  intros _. by exists s, d.
Qed.

(** X10.  The evaluator answers closed exactly for a text without the
    all-day marker that contains 不开放, or contains 闭馆 together with
    the [%m/%d] token of the requested date.  It raises only out of the
    rule loop, so never without a date and never on a text with a
    marker. *)
Theorem parse_opening_hours_closed_iff (hours : option string)
    (visit_date : option date) :
  (parse_opening_hours hours visit_date = Some false
   ↔ ∃ s, hours = Some s
          ∧ contains "全天开放" s = false
          ∧ (contains "不开放" s = true
             ∨ (contains "闭馆" s = true ∧ date_listed s visit_date = true)))
  ∧ (parse_opening_hours hours visit_date = None →
     ∃ s d, hours = Some s ∧ visit_date = Some d
            ∧ contains "全天开放" s = false
            ∧ contains "不开放" s || contains "闭馆" s = false
            ∧ rules_loop d (rules_of s) = Raise)
  ∧ is_Some (parse_opening_hours hours None).
Proof.
  split_and!.
  - apply parse_opening_hours_false_iff.
  - apply parse_opening_hours_raises.
  - destruct (parse_opening_hours hours None) eqn:E; [by eexists|].
    apply parse_opening_hours_raises in E as (s & d & _ & [=] & _).
Qed.

(** X13.  An attraction is reported closed on a date only when the first
    row of the frame with its name carries an opening-hours text that
    makes the evaluator answer closed; with no frame column, no row, a
    missing cell or an exception inside, it is reported open. *)
Theorem check_opening_status_false_iff (r : recommender) (name : string)
    (d : date) :
  check_opening_status r name d = false
  ↔ ∃ rows record s,
      attractions_df r = Some rows
      ∧ List.find (λ row, bool_decide (row.1 = name)) rows = Some record
      ∧ record.2 = Some s
      ∧ contains "全天开放" s = false
      ∧ (contains "不开放" s = true
         ∨ (contains "闭馆" s = true ∧ contains (strftime_md d) s = true)).
Proof.
  unfold check_opening_status. split.
  - destruct (attractions_df r) as [rows|]; [|done].
    destruct (List.find _ rows) as [record|] eqn:E; [|done].
    intros H.
    destruct (parse_opening_hours record.2 (Some d)) as [[]|] eqn:Ep; try done.
    apply parse_opening_hours_false_iff in Ep as (s & Hs & Hall & Hclosed).
    by exists rows, record, s.
  - intros (rows & record & s & -> & -> & Hs & Hall & Hclosed).
    assert (parse_opening_hours record.2 (Some d) = Some false) as ->; [|done].
    apply parse_opening_hours_false_iff. by exists s.
Qed.

(** *** Date ranges of a rule *)

Lemma date_le_trans a b c :
  date_le a b = true → date_le b c = true → date_le a c = true.
Proof.
  unfold date_le.
  rewrite !orb_true_iff, !andb_true_iff, !orb_true_iff, !andb_true_iff,
    !Z.ltb_lt, !Z.eqb_eq, !Z.leb_le.
  lia.
Qed.

(** X12.  A date lies in a rule's range only if both ends parse as dates
    of the requested year and the start is not after the end: a range
    that runs over the turn of the year, such as 12/01-02/28, holds no
    date at all, and neither does a range with an end that is no date of
    that year. *)
Theorem _date_in_range_true (d : date) (start_str end_str : string) :
  _date_in_range d start_str end_str = true →
  ∃ start end_,
    _parse_partial_date start_str (date_year d) = Some start
    ∧ _parse_partial_date end_str (date_year d) = Some end_
    ∧ valid_date start = true ∧ valid_date end_ = true
    ∧ date_le start d = true ∧ date_le d end_ = true
    ∧ date_le start end_ = true.
Proof.
  unfold _date_in_range.
  destruct (_parse_partial_date start_str (date_year d)) as [a|] eqn:Ea; [|done].
  destruct (_parse_partial_date end_str (date_year d)) as [b|] eqn:Eb; [|done].
  intros [H1 H2]%andb_true_iff. exists a, b.
  assert (Hvalid : ∀ s y x, _parse_partial_date s y = Some x → valid_date x = true).
  { intros s y x. unfold _parse_partial_date, make_date.
    repeat case_match; try done.
    intros (mm & _ & Hb)%bind_Some. apply bind_Some in Hb as (dd & _ & Hb).
    case_match eqn:Ev; [|done]. by injection Hb as <-. }
  split_and!; try done; [by eapply Hvalid..|by eapply date_le_trans].
Qed.

Lemma _date_in_range_true_witness :
  _date_in_range sat_2024_06_15 "06/01" "08/31" = true
  ∧ ∃ start end_,
      _parse_partial_date "06/01" 2024 = Some start
      ∧ _parse_partial_date "08/31" 2024 = Some end_
      ∧ date_le start end_ = true.
Proof.
  assert (H : _date_in_range sat_2024_06_15 "06/01" "08/31" = true)
    by (vm_compute; reflexivity).
  split; [exact H|].
  destruct (_date_in_range_true sat_2024_06_15 "06/01" "08/31" H)
    as (start & end_ & H1 & H2 & _ & _ & _ & _ & H3).
  by exists start, end_.
Defined.

(** The range 12/01-02/28 holds neither 15 January nor 15 December. *)
Example wrapped_range_never_matches :
  _date_in_range {| date_year := 2024; date_month := 1; date_day := 15 |}
    "12/01" "02/28" = false
  ∧ _date_in_range {| date_year := 2024; date_month := 12; date_day := 15 |}
      "12/01" "02/28" = false.
Proof. vm_compute. done. Qed.

(** ** Strings *)















Lemma lstrip_head s c s' : lstrip s = String c s' → is_ws c = false.
Proof.
  induction s as [|a s IH]; [done|]. simpl.
  destruct (is_ws a) eqn:E; [done|]. by intros [= <- <-].
Qed.



Lemma split_ws_go_nil fuel : split_ws_go fuel EmptyString = [].
Proof. by destruct fuel. Qed.







Lemma ends_with_nil x : x ≠ EmptyString → ends_with x EmptyString = false.
Proof. by destruct x. Qed.



(** The length of the text is fuel enough for [split_ws_go]. *)
Lemma lstrip_length s : (String.length (lstrip s) ≤ String.length s)%nat.
Proof.
  induction s as [|c s IH]; [done|]. simpl. destruct (is_ws c); simpl; lia.
Qed.

Lemma span_token_length s :
  String.length s
  = (String.length (span_token s).1 + String.length (span_token s).2)%nat.
Proof.
  induction s as [|c s IH]; [done|]. simpl.
  destruct (is_ws c); [done|]. destruct (span_token s). simpl in *. lia.
Qed.

Lemma split_ws_go_fuel fuel : ∀ fuel' s,
  (String.length s ≤ fuel)%nat → (String.length s ≤ fuel')%nat →
  split_ws_go fuel s = split_ws_go fuel' s.
Proof.
  induction fuel as [|fuel IH]; intros fuel' s H H'.
  { destruct s; [|simpl in H; lia]. by rewrite !split_ws_go_nil. }
  destruct fuel' as [|fuel'].
  { destruct s; [|simpl in H'; lia]. by rewrite !split_ws_go_nil. }
  cbn [split_ws_go]. pose proof (lstrip_length s) as Hl.
  destruct (lstrip s) as [|c s1] eqn:E; [done|].
  pose proof (lstrip_head s c s1 E) as Hc.
  pose proof (span_token_length (String c s1)) as Hlen.
  destruct (span_token (String c s1)) as [tok rest] eqn:Et.
  assert (tok ≠ EmptyString).
  { simpl in Et. rewrite Hc in Et. destruct (span_token s1).
    by injection Et as <- <-. }
  destruct tok as [|c' tok]; [done|].
  simpl in Hlen, Hl. f_equal. apply IH; lia.
Qed.

(** ** Node identifiers and the labels read back from them *)










(** A label with an underscore comes back cut. *)
Example node_id_label_cut :
  last_piece (node_id "Theme" "亲子_户外") = "户外".
Proof. vm_compute. done. Qed.

(** ** An opening-hours text that is one time span *)







(** ** The area term of the score *)

Lemma extract_area_from_address_cases r address :
  let area := extract_area_from_address r address in
  (area ∈ areas r ∧ contains area address = true)
  ∨ (area = "未知区域"
     ∧ Forall (λ a, contains a address = false) (areas r)).
Proof.
  unfold extract_area_from_address.
  destruct (List.find _ (areas r)) as [a|] eqn:E; simpl.
  - left. apply find_some in E as [Hin Hc]. split; [|done].
    by apply list_elem_of_In.
  - right. split; [done|]. apply Forall_forall. intros a Hin.
    apply list_elem_of_In in Hin.
    pose proof (find_none _ _ E a Hin) as H. simpl in H.
    by destruct (contains a address).
Qed.

(** X25.  The area found for an address is an area of the graph whose
    name occurs in the address, or 未知区域 when none does.  With a target
    area the area term is 20 when that is the target, 14 when the
    travel-time table lists the pair (target, area), and 8 otherwise: so
    8 for every address that names no area, unless the target is 未知区域
    itself. *)
Theorem area_score_cases (r : recommender) (target address : string) :
  target ≠ EmptyString →
  let area := extract_area_from_address r address in
  ((area ∈ areas r ∧ contains area address = true)
   ∨ (area = "未知区域" ∧ Forall (λ a, contains a address = false) (areas r)))
  ∧ (area = target → area_score r (Some target) address = 20%Q)
  ∧ (area ≠ target → is_Some (travel_times !! (target, area)) →
     area_score r (Some target) address = 14%Q)
  ∧ (area ≠ target → travel_times !! (target, area) = None →
     area_score r (Some target) address = 8%Q)
  ∧ (Forall (λ a, contains a address = false) (areas r) →
     target ≠ "未知区域" → area_score r (Some target) address = 8%Q).
Proof.
  intros Hne area.
  assert (Hsame : area = target → area_score r (Some target) address = 20%Q).
  { intros Heq. unfold area_score, target_areas_of.
    rewrite decide_False by done. fold area.
    rewrite decide_True; [done|]. rewrite Heq. apply list_elem_of_here. }
  assert (Hadj : area ≠ target → is_Some (travel_times !! (target, area)) →
                 area_score r (Some target) address = 14%Q).
  { intros Hdiff Hlisted. unfold area_score, target_areas_of.
    rewrite decide_False by done. fold area.
    rewrite decide_False by (by intros ->%list_elem_of_singleton).
    rewrite decide_True; [done|]. by apply get_adjacent_areas_listed. }
  assert (Hfar : area ≠ target → travel_times !! (target, area) = None →
                 area_score r (Some target) address = 8%Q).
  { intros Hdiff Hnone. unfold area_score, target_areas_of.
    rewrite decide_False by done. fold area.
    rewrite decide_False by (by intros ->%list_elem_of_singleton).
    rewrite decide_False; [done|]. rewrite get_adjacent_areas_listed, Hnone.
    by intros [? [=]]. }
  split_and!; try done.
  - apply extract_area_from_address_cases.
  - intros Hnone Hunknown.
    assert (Harea : area = "未知区域").
    { destruct (extract_area_from_address_cases r address) as [[Hin Hc]|[H _]];
        [|done].
      rewrite Forall_forall in Hnone. by rewrite (Hnone _ Hin) in Hc. }
    apply Hfar; [by rewrite Harea|].
    rewrite Harea.
    destruct (travel_times !! (target, "未知区域")) as [t|] eqn:E; [|done].
    assert (Hall : map_Forall (λ k _, k.2 ≠ "未知区域") travel_times).
    { apply (bool_decide_unpack _). vm_compute. reflexivity. }
    by destruct (Hall _ _ E).
Qed.

Lemma area_score_cases_witness :
  area_score demo (Some "云龙区") "徐州市泉山区湖北路" = 14%Q.
Proof.
  assert (Hne : "云龙区" ≠ EmptyString) by done.
  destruct (area_score_cases demo "云龙区" "徐州市泉山区湖北路" Hne)
    as (_ & _ & H14 & _).
  apply H14; [by vm_compute|]. vm_compute. by eexists.
Defined.
